(** * Revanced patches: a shallow embedding of [src/patches.py]

    The Python module keeps a fixed registry of supported applications,
    loads a JSON manifest of patches, sorts the patches into one list per
    application (stored as attributes of the [Patches] object) and then
    answers queries about one application: its patches, its recommended
    version, and which patches to hand to the command-line parser.

    Python values are embedded as follows.
    - [str] is [string]; comparison of strings is the ordinal comparison
      of [String.compare], as Python's is on code points.
    - A [dict] literal whose iteration order the code relies on is an
      association list in insertion order; a [dict] used only as a map
      (the instance [__dict__], [app.resource], the dict comprehension of
      [get]) is a [gmap].
    - Exceptions are the values of [exn]; a call that may raise returns
      [exn + A].
    - The [Patches] object is its instance dictionary; class attributes
      are looked up after it, as [getattr] does. *)

From Stdlib Require Import Ascii String List Bool Arith Lia.
From stdpp Require Import gmap strings list.

Local Open Scope list_scope.

(** ** Exceptions and the error monad *)

Inductive exn : Type :=
| AppNotFound (msg : string)
| PatchesJsonLoadFailed (msg : string) (file_name : string)
| FileNotFoundError (file_name : string)
| JSONDecodeError
| KeyError (key : string)
| AttributeError (attr : string)
| TypeError (msg : string).

Definition result (A : Type) : Type := (exn + A)%type.

Definition raise {A : Type} (e : exn) : result A := inl e.
Definition ret {A : Type} (a : A) : result A := inr a.

#[global] Instance result_bind : MBind result := fun A B k m =>
  match m with
  | inl e => inl e
  | inr a => k a
  end.

(** [for x in xs: body], where the body may raise and updates a state. *)
Fixpoint for_each {A S : Type} (xs : list A) (body : S -> A -> result S)
    (s : S) : result S :=
  match xs with
  | [] => ret s
  | x :: xs' => s' ← body s x; for_each xs' body s'
  end.

(** ** Ordered dictionaries *)

(** [d[k]] and [k in d] on a [dict] kept in insertion order. *)
Fixpoint dict_get {V : Type} (d : list (string * V)) (k : string) : option V :=
  match d with
  | [] => None
  | (k', v) :: d' => if String.eqb k' k then Some v else dict_get d' k
  end.

Definition dict_keys {V : Type} (d : list (string * V)) : list string :=
  map fst d.

Definition dict_values {V : Type} (d : list (string * V)) : list V :=
  map snd d.


(** ** JSON documents

    [json.load] belongs to Python's standard library, not to the
    repository. It is embedded as a recursive-descent decoder for the
    grammar of RFC 8259 with the extensions of Python's decoder ([NaN],
    [Infinity], [-Infinity]); numbers are kept as their lexemes, and a
    string is the UTF-8 text it denotes. *)

Module json.

#[warnings="-register-all"]
Inductive value : Type :=
| JNull
| JBool (b : bool)
| JNumber (lexeme : string)
| JString (s : string)
| JArray (items : list value)
| JObject (members : list (string * value)).

Definition quote : ascii := "034"%char.
Definition backslash : ascii := "092"%char.

Definition is_ws (c : ascii) : bool :=
  Ascii.eqb c " " || Ascii.eqb c "009" || Ascii.eqb c "010" || Ascii.eqb c "013".

Fixpoint skip_ws (s : string) : string :=
  match s with
  | String c r => if is_ws c then skip_ws r else s
  | EmptyString => s
  end.

Definition is_digit (c : ascii) : bool :=
  (48 <=? nat_of_ascii c) && (nat_of_ascii c <=? 57).

(** The longest prefix of digits, and what follows it. *)
Fixpoint span_digits (s : string) : string * string :=
  match s with
  | String c r =>
      if is_digit c then let '(ds, r') := span_digits r in (String c ds, r')
      else (EmptyString, s)
  | EmptyString => (EmptyString, s)
  end.

Fixpoint strip_prefix (p s : string) : option string :=
  match p, s with
  | EmptyString, _ => Some s
  | String a p', String b s' => if Ascii.eqb a b then strip_prefix p' s' else None
  | String _ _, EmptyString => None
  end.

(** A number is an optional minus sign and an integer part (a single
    zero, or a non-zero digit and more digits), then a fraction (a dot and
    digits) and an exponent ([e] or [E], an optional sign, digits), each
    taken when it matches. *)
Definition scan_int (s : string) : option (string * string) :=
  let '(sign, s1) :=
    match s with
    | String c r => if Ascii.eqb c "-" then ("-", r) else (EmptyString, s)
    | EmptyString => (EmptyString, s)
    end in
  match s1 with
  | String c r =>
      if Ascii.eqb c "0" then Some (sign +:+ "0", r)
      else if is_digit c then
        let '(ds, r') := span_digits s1 in Some (sign +:+ ds, r')
      else None
  | EmptyString => None
  end.

Definition scan_frac (s : string) : string * string :=
  match s with
  | String c r =>
      if Ascii.eqb c "." then
        match span_digits r with
        | (EmptyString, _) => (EmptyString, s)
        | (ds, r') => (String c ds, r')
        end
      else (EmptyString, s)
  | EmptyString => (EmptyString, s)
  end.

Definition scan_exp (s : string) : string * string :=
  match s with
  | String c r =>
      if Ascii.eqb c "e" || Ascii.eqb c "E" then
        let '(sign, r1) :=
          match r with
          | String d r0 =>
              if Ascii.eqb d "-" || Ascii.eqb d "+"
              then (String d EmptyString, r0) else (EmptyString, r)
          | EmptyString => (EmptyString, r)
          end in
        match span_digits r1 with
        | (EmptyString, _) => (EmptyString, s)
        | (ds, r') => (String c (sign +:+ ds), r')
        end
      else (EmptyString, s)
  | EmptyString => (EmptyString, s)
  end.

Definition scan_number (s : string) : option (string * string) :=
  '(i, r1) ← scan_int s;
  let '(f, r2) := scan_frac r1 in
  let '(e, r3) := scan_exp r2 in
  Some (i +:+ f +:+ e, r3).

(** *** String literals *)

Definition hex_digit (c : ascii) : option N :=
  let n := N_of_ascii c in
  if ((48 <=? n) && (n <=? 57))%N then Some (n - 48)%N
  else if ((65 <=? n) && (n <=? 70))%N then Some (n - 55)%N
  else if ((97 <=? n) && (n <=? 102))%N then Some (n - 87)%N
  else None.

(** A decoded piece of a string literal: a character of the text, or the
    code unit of a [\uXXXX] escape. *)
Inductive unit_ : Type :=
| Raw (c : ascii)
| Escaped (code : N).

(** The text after the opening quote, up to the closing quote. *)
Fixpoint scan_units (s : string) : option (list unit_ * string) :=
  match s with
  | EmptyString => None
  | String c r =>
      if Ascii.eqb c quote then Some ([], r)
      else if (N_of_ascii c <? 32)%N then None
      else if Ascii.eqb c backslash then
        match r with
        | String e r1 =>
            let simple (x : ascii) :=
              '(us, rest) ← scan_units r1; Some (Raw x :: us, rest) in
            if Ascii.eqb e quote then simple quote
            else if Ascii.eqb e backslash then simple backslash
            else if Ascii.eqb e "/" then simple "/"%char
            else if Ascii.eqb e "b" then simple "008"%char
            else if Ascii.eqb e "f" then simple "012"%char
            else if Ascii.eqb e "n" then simple "010"%char
            else if Ascii.eqb e "r" then simple "013"%char
            else if Ascii.eqb e "t" then simple "009"%char
            else if Ascii.eqb e "u" then
              match r1 with
              | String h1 (String h2 (String h3 (String h4 r2))) =>
                  d1 ← hex_digit h1; d2 ← hex_digit h2;
                  d3 ← hex_digit h3; d4 ← hex_digit h4;
                  '(us, rest) ← scan_units r2;
                  Some (Escaped (((d1 * 16 + d2) * 16 + d3) * 16 + d4)%N :: us, rest)
              | _ => None
              end
            else None
        | EmptyString => None
        end
      else '(us, rest) ← scan_units r; Some (Raw c :: us, rest)
  end.

Definition byte (n : N) : ascii := ascii_of_N n.

(** UTF-8 for a code point. *)
Definition utf8 (n : N) : list ascii :=
  (if n <? 128 then [byte n]
   else if n <? 2048 then [byte (192 + n / 64); byte (128 + n mod 64)]
   else if n <? 65536 then
     [byte (224 + n / 4096); byte (128 + (n / 64) mod 64); byte (128 + n mod 64)]
   else
     [byte (240 + n / 262144); byte (128 + (n / 4096) mod 64);
      byte (128 + (n / 64) mod 64); byte (128 + n mod 64)])%N.

(** Two adjacent escapes that form a surrogate pair denote one code
    point. *)
Fixpoint text_of_units (us : list unit_) : list ascii :=
  match us with
  | [] => []
  | Raw c :: us' => c :: text_of_units us'
  | Escaped hi :: us' =>
      match us' with
      | Escaped lo :: us'' =>
          if ((55296 <=? hi) && (hi <=? 56319) && (56320 <=? lo) && (lo <=? 57343))%N
          then utf8 (65536 + (hi - 55296) * 1024 + (lo - 56320))%N ++ text_of_units us''
          else utf8 hi ++ text_of_units us'
      | _ => utf8 hi ++ text_of_units us'
      end
  end.

Definition scan_string (s : string) : option (string * string) :=
  '(us, rest) ← scan_units s;
  Some (string_of_list_ascii (text_of_units us), rest).

(** *** Values *)

Definition literals : list (string * value) :=
  [ ("null", JNull); ("true", JBool true); ("false", JBool false);
    ("NaN", JNumber "NaN"); ("Infinity", JNumber "Infinity");
    ("-Infinity", JNumber "-Infinity") ].

Fixpoint scan_literal (ls : list (string * value)) (s : string)
    : option (value * string) :=
  match ls with
  | [] => None
  | (word, v) :: ls' =>
      match strip_prefix word s with
      | Some r => Some (v, r)
      | None => scan_literal ls' s
      end
  end.

(** The scanners take the text at the first character of what they read;
    white space is skipped by the caller, as the decoder does. [fuel]
    bounds the depth of the recursion by the length of the text. *)
Fixpoint scan_value (fuel : nat) (s : string) : option (value * string) :=
  match fuel, s with
  | 0, _ | _, EmptyString => None
  | S n, String c r =>
      if Ascii.eqb c quote then
        '(t, r') ← scan_string r; Some (JString t, r')
      else if Ascii.eqb c "{" then
        match skip_ws r with
        | String c' r' =>
            if Ascii.eqb c' "}" then Some (JObject [], r')
            else '(ms, r'') ← scan_members n (skip_ws r); Some (JObject ms, r'')
        | EmptyString => None
        end
      else if Ascii.eqb c "[" then
        match skip_ws r with
        | String c' r' =>
            if Ascii.eqb c' "]" then Some (JArray [], r')
            else '(vs, r'') ← scan_elements n (skip_ws r); Some (JArray vs, r'')
        | EmptyString => None
        end
      else
        match scan_literal literals s with
        | Some found => Some found
        | None => '(lexeme, r') ← scan_number s; Some (JNumber lexeme, r')
        end
  end
with scan_elements (fuel : nat) (s : string) : option (list value * string) :=
  match fuel with
  | 0 => None
  | S n =>
      '(v, r) ← scan_value n s;
      match skip_ws r with
      | String c r' =>
          if Ascii.eqb c "," then
            '(vs, r'') ← scan_elements n (skip_ws r'); Some (v :: vs, r'')
          else if Ascii.eqb c "]" then Some ([v], r')
          else None
      | EmptyString => None
      end
  end
with scan_members (fuel : nat) (s : string)
    : option (list (string * value) * string) :=
  match fuel, s with
  | 0, _ | _, EmptyString => None
  | S n, String q r0 =>
      if Ascii.eqb q quote then
        '(k, r1) ← scan_string r0;
        match skip_ws r1 with
        | String c r2 =>
            if Ascii.eqb c ":" then
              '(v, r3) ← scan_value n (skip_ws r2);
              match skip_ws r3 with
              | String d r4 =>
                  if Ascii.eqb d "," then
                    '(ms, r5) ← scan_members n (skip_ws r4);
                    Some ((k, v) :: ms, r5)
                  else if Ascii.eqb d "}" then Some ([(k, v)], r4)
                  else None
              | EmptyString => None
              end
            else None
        | EmptyString => None
        end
      else None
  end.

(** [json.loads]: one value, with nothing but white space around it. *)
Definition loads (text : string) : result value :=
  match scan_value (S (S (String.length text))) (skip_ws text) with
  | Some (v, r) =>
      match skip_ws r with
      | EmptyString => ret v
      | String _ _ => raise JSONDecodeError
      end
  | None => raise JSONDecodeError
  end.

(** [obj[key]] on a decoded object: of two members with one key the
    decoder keeps the later. *)
Definition member (key : string) (members : list (string * value))
    : option value :=
  dict_get (rev members) key.

End json.

(** Text with a double quote wherever [s] has an apostrophe; manifests
    are written with it below. *)
Fixpoint dq (s : string) : string :=
  match s with
  | EmptyString => EmptyString
  | String c r => String (if Ascii.eqb c "'" then json.quote else c) (dq r)
  end.

(** ** The data model *)

(** An entry of a patch's [compatiblePackages]: keys [name] and
    [versions]. *)
Record CompatiblePackage : Type := {
  pkg_name : string;
  pkg_versions : list string
}.

(** An entry of the manifest: keys [name], [description] and
    [compatiblePackages]. *)
Record PatchDescriptor : Type := {
  patch_name : string;
  patch_description : string;
  patch_compatiblePackages : list CompatiblePackage
}.

(** The dict [p] that [fetch_patches] appends to a bucket: keys [name],
    [description], [app] and [version]. *)
Record ProjectedPatch : Type := {
  p_name : string;
  p_description : string;
  p_app : string;
  p_version : string
}.

#[global] Instance ProjectedPatch_eq_dec : EqDecision ProjectedPatch.
Proof. solve_decision. Defined.

Record RevancedConfig : Type := {
  temp_folder : string
}.

(** Modelled from the spec: the application descriptor [APP] of
    [src/app.py], with the attributes this module reads ([app_name],
    [app_version], [resource], [include_request], [exclude_request]) and
    those it writes: [no_of_patches], and the pair that
    [set_recommended_version] assigns. *)
Record APP : Type := {
  app_name : string;
  app_version : option string;
  resource : gmap string string;
  include_request : list string;
  exclude_request : list string;
  no_of_patches : nat;
  recommended_version : string;
  experiment : bool
}.

(** [app.no_of_patches = n] *)
Definition set_no_of_patches (app : APP) (n : nat) : APP :=
  {| app_name := app_name app; app_version := app_version app;
     resource := resource app; include_request := include_request app;
     exclude_request := exclude_request app; no_of_patches := n;
     recommended_version := recommended_version app;
     experiment := experiment app |}.

(** Modelled from the spec: [APP.set_recommended_version], which stores
    the effective version and the experimental flag together. *)
Definition set_recommended_version (app : APP) (version : string)
    (exp : bool) : APP :=
  {| app_name := app_name app; app_version := app_version app;
     resource := resource app; include_request := include_request app;
     exclude_request := exclude_request app;
     no_of_patches := no_of_patches app;
     recommended_version := version; experiment := exp |}.

(** The parser that receives the selection: the calls made on it, oldest
    first. *)
Inductive call : Type :=
| include (name : string)
| exclude (name : string).

(** ** The manifest as typed data

    [fetch_patches] reads the decoded document with [patch[key]] and
    iteration. On a document of the shape the manifest has (an array of
    objects with strings [name] and [description] and an array
    [compatiblePackages] of objects with a string [name] and an array of
    strings [versions]) these reads are the projections below. A document
    of another shape is outside the model: Python fails at the first read
    that does not fit, with [KeyError] or [TypeError], or goes on where a
    false value stands for an empty list; here such a document is refused
    as a whole, with [TypeError], before indexing. *)

Definition subscript (v : json.value) (key : string) : result json.value :=
  match v with
  | json.JObject members =>
      match json.member key members with
      | Some x => ret x
      | None => raise (KeyError key)
      end
  | _ => raise (TypeError "not subscriptable by a string")
  end.

Definition as_str (v : json.value) : result string :=
  match v with
  | json.JString s => ret s
  | _ => raise (TypeError "not a string")
  end.

Definition as_list (v : json.value) : result (list json.value) :=
  match v with
  | json.JArray items => ret items
  | _ => raise (TypeError "not an array")
  end.

Fixpoint traverse {A B : Type} (f : A -> result B) (xs : list A)
    : result (list B) :=
  match xs with
  | [] => ret []
  | x :: xs' => y ← f x; ys ← traverse f xs'; ret (y :: ys)
  end.

Definition package_of_json (x : json.value) : result CompatiblePackage :=
  name ← subscript x "name" ≫= as_str;
  versions ← (subscript x "versions" ≫= as_list) ≫= traverse as_str;
  ret {| pkg_name := name; pkg_versions := versions |}.

Definition patch_of_json (patch : json.value) : result PatchDescriptor :=
  name ← subscript patch "name" ≫= as_str;
  description ← subscript patch "description" ≫= as_str;
  packages ← (subscript patch "compatiblePackages" ≫= as_list)
             ≫= traverse package_of_json;
  ret {| patch_name := name; patch_description := description;
         patch_compatiblePackages := packages |}.

Definition manifest_of_json (doc : json.value) : result (list PatchDescriptor) :=
  as_list doc ≫= traverse patch_of_json.

(** ** The patch loader (lines 224-247) *)

Module PatchLoader.

(** [open(file_name)] on a file system that maps the path of each
    readable file to its text. *)
Definition open (fs : gmap string string) (file_name : string) : result string :=
  match fs !! file_name with
  | Some text => ret text
  | None => raise (FileNotFoundError file_name)
  end.

(** The [try] block opens and decodes; the only handler is for
    [FileNotFoundError], every other exception leaves the function as it
    is. *)
Definition load_patches (fs : gmap string string) (file_name : string)
    : result json.value :=
  match (f ← open fs file_name; json.loads f) with
  | inl (FileNotFoundError _) =>
      raise (PatchesJsonLoadFailed "File not found" file_name)
  | inl e => raise e
  | inr patches => ret patches
  end.

End PatchLoader.

(** ** The application registry (lines 17-61) *)

Module Patches.

Definition _revanced_app_ids : list (string * string) :=
  [ ("com.reddit.frontpage", "reddit");
    ("com.ss.android.ugc.trill", "tiktok");
    ("com.twitter.android", "twitter");
    ("de.dwd.warnapp", "warnwetter");
    ("com.spotify.music", "spotify");
    ("com.awedea.nyx", "nyx-music-player");
    ("ginlemon.iconpackstudio", "icon_pack_studio");
    ("com.ticktick.task", "ticktick");
    ("tv.twitch.android.app", "twitch");
    ("com.myprog.hexedit", "hex-editor");
    ("co.windyapp.android", "windy");
    ("org.totschnig.myexpenses", "my-expenses");
    ("com.backdrops.wallpapers", "backdrops");
    ("com.ithebk.expensemanager", "expensemanager");
    ("net.dinglisch.android.taskerm", "tasker");
    ("net.binarymode.android.irplus", "irplus");
    ("com.vsco.cam", "vsco");
    ("com.zombodroid.MemeGenerator", "meme-generator-free");
    ("com.teslacoilsw.launcher", "nova_launcher");
    ("eu.faircode.netguard", "netguard");
    ("com.instagram.android", "instagram");
    ("com.nis.app", "inshorts");
    ("com.facebook.orca", "messenger");
    ("com.google.android.apps.recorder", "grecorder");
    ("tv.trakt.trakt", "trakt");
    ("com.candylink.openvpn", "candyvpn");
    ("com.sony.songpal.mdr", "sonyheadphone");
    ("com.dci.dev.androidtwelvewidgets", "androidtwelvewidgets");
    ("io.yuka.android", "yuka");
    ("free.reddit.news", "relay");
    ("com.rubenmayayo.reddit", "boost");
    ("com.andrewshu.android.reddit", "rif");
    ("com.laurencedawson.reddit_sync", "sync");
    ("ml.docilealligator.infinityforreddit", "infinity");
    ("me.ccrama.redditslide", "slide");
    ("com.onelouder.baconreader", "bacon");
    ("com.google.android.youtube", "youtube");
    ("com.google.android.apps.youtube.music", "youtube_music");
    ("com.mgoogle.android.gms", "microg");
    ("jp.pxv.android", "pixiv") ].

(** [{key: (value, "_" + value) for key, value in _revanced_app_ids.items()}] *)
Definition revanced_app_ids : list (string * (string * string)) :=
  map (fun '(key, value) => (key, (value, "_" +:+ value))) _revanced_app_ids.

(** *** Attributes of a [Patches] object

    The instance dictionary holds the buckets that [fetch_patches] sets:
    one list of projected patches per attribute name. *)

Abbreviation t := (gmap string (list ProjectedPatch)).

(** What [getattr(self, name)] can return. *)
Inductive attr : Type :=
| Bucket (patches : list ProjectedPatch)
| AppIds (d : list (string * string))
| AppIdTuples (d : list (string * (string * string)))
| Text (s : string)
| InstanceDict (d : t)
| Callable
| Class
| NoneValue.

(** The methods every object inherits from [object], as of Python 3.11. *)
Definition object_methods : list string :=
  [ "__delattr__"; "__dir__"; "__eq__"; "__format__"; "__ge__";
    "__getattribute__"; "__getstate__"; "__gt__"; "__hash__";
    "__init_subclass__"; "__le__"; "__lt__"; "__ne__"; "__new__";
    "__reduce__"; "__reduce_ex__"; "__repr__"; "__setattr__";
    "__sizeof__"; "__str__"; "__subclasshook__" ].

(** The attributes an instance finds on its class: the names bound in the
    class body, the docstring, and what the class has from [object]. *)
Definition class_attrs (self : t) : list (string * attr) :=
  [ ("__doc__", Text "Revanced Patches.");
    ("__module__", Text "src.patches");
    ("_revanced_app_ids", AppIds _revanced_app_ids);
    ("revanced_app_ids", AppIdTuples revanced_app_ids);
    ("get_package_name", Callable);
    ("support_app", Callable);
    ("fetch_patches", Callable);
    ("__init__", Callable);
    ("get", Callable);
    ("include_exclude_patch", Callable);
    ("get_app_configs", Callable);
    ("__dict__", InstanceDict self);
    ("__class__", Class);
    ("__weakref__", NoneValue) ]
  ++ map (fun name => (name, Callable)) object_methods.

(** [getattr(self, name)]: the instance dictionary, then the class. *)
Definition getattr (self : t) (name : string) : result attr :=
  match self !! name with
  | Some patches => ret (Bucket patches)
  | None =>
      match dict_get (class_attrs self) name with
      | Some a => ret a
      | None => raise (AttributeError name)
      end
  end.

(** [setattr(self, name, value)] for a list [value]. *)
Definition setattr (self : t) (name : string) (value : list ProjectedPatch) : t :=
  <[name := value]> self.

(** [getattr(self, name).append(p)]: only a list has [append], and the
    list that grows is the one the attribute holds. *)
Definition getattr_append (self : t) (name : string) (p : ProjectedPatch)
    : result t :=
  a ← getattr self name;
  match a with
  | Bucket patches => ret (<[name := patches ++ [p]]> self)
  | _ => raise (AttributeError "append")
  end.

(** [len(x)] *)
Definition len (x : attr) : result nat :=
  match x with
  | Bucket patches => ret (length patches)
  | AppIds d => ret (length d)
  | AppIdTuples d => ret (length d)
  | Text s => ret (String.length s)
  | InstanceDict d => ret (size d)
  | Callable | Class | NoneValue => raise (TypeError "object has no len()")
  end.

(** *** [get_package_name] (lines 63-81) and [support_app] (lines 83-92) *)

Definition get_package_name (app : string) : result string :=
  match
    find (fun '(package, app_tuple) => String.eqb (fst app_tuple) app)
         revanced_app_ids
  with
  | Some (package, _) => ret package
  | None => raise (AppNotFound ("App " +:+ app +:+ " not supported yet."))
  end.

Definition support_app : list (string * string) := _revanced_app_ids.

(** *** [fetch_patches] (lines 94-130) *)

(** [version[-1]] on a list that starts with [v]. *)
Fixpoint last_from (v : string) (rest : list string) : string :=
  match rest with
  | [] => v
  | v' :: rest' => last_from v' rest'
  end.

(** [version[-1] if version else "all"] *)
Definition last_or_all (version : list string) : string :=
  match version with
  | [] => "all"
  | v :: rest => last_from v rest
  end.

(** Lines 116-118: the projection of a patch without compatible
    packages. *)
Definition universal_projection (patch : PatchDescriptor) : ProjectedPatch :=
  {| p_name := patch_name patch; p_description := patch_description patch;
     p_app := "universal"; p_version := "all" |}.

(** Lines 123-128: one pair of the inner loop. *)
Definition index_package (patch : PatchDescriptor) (self : t)
    (x : CompatiblePackage) : result t :=
  let compatible_package := pkg_name x in
  let version := pkg_versions x in
  match dict_get revanced_app_ids compatible_package with
  | Some app_tuple =>
      let app_name := snd app_tuple in
      let p := {| p_name := patch_name patch;
                  p_description := patch_description patch;
                  p_app := compatible_package;
                  p_version := last_or_all version |} in
      getattr_append self app_name p
  | None => ret self
  end.

(** Lines 115-128: the body of the loop over the manifest. *)
Definition index_patch (self : t) (patch : PatchDescriptor) : result t :=
  self ←
    match patch_compatiblePackages patch with
    | [] => getattr_append self "universal_patch" (universal_projection patch)
    | _ :: _ => ret self
    end;
  for_each (patch_compatiblePackages patch) (index_package patch) self.

(** Lines 110-112: an empty list for every application, and one for the
    universal patches. [self.revanced_app_ids] is the attribute of the
    class: no method sets an attribute of that name on the object. *)
Definition init_buckets (self : t) : t :=
  let app_names :=
    omap (fun x => snd <$> dict_get revanced_app_ids x)
         (dict_keys revanced_app_ids) in
  let self := foldl (fun self app_name => setattr self app_name []) self app_names in
  setattr self "universal_patch" [].

(** Lines 110-128: the buckets of a manifest already loaded. *)
Definition index_patches (self : t) (patches : list PatchDescriptor) : result t :=
  for_each patches index_patch (init_buckets self).

(** Lines 110-130. *)
Definition index_and_count (self : t) (patches : list PatchDescriptor)
    (app : APP) : result (t * APP) :=
  self ← index_patches self patches;
  n_patches ← getattr self ("_" +:+ app_name app) ≫= len;
  ret (self, set_no_of_patches app n_patches).

Definition fetch_patches (fs : gmap string string) (self : t)
    (config : RevancedConfig) (app : APP) : result (t * APP) :=
  file ←
    match resource app !! "patches_json" with
    | Some file => ret file
    | None => raise (KeyError "patches_json")
    end;
  doc ← PatchLoader.load_patches fs (temp_folder config +:+ "/" +:+ file);
  patches ← manifest_of_json doc;
  index_and_count self patches app.

(** [Patches(config, app)]: a new object, then [__init__]. *)
Definition __init__ (fs : gmap string string) (config : RevancedConfig)
    (app : APP) : result (t * APP) :=
  fetch_patches fs ∅ config app.

(** *** [get] (lines 135-160) *)

(** [{value[0]: value[1] for value in self.revanced_app_ids.values()}] *)
Definition app_names : gmap string string :=
  foldl (fun d value => <[fst value := snd value]> d) ∅
        (dict_values revanced_app_ids).

(** Line 153 takes the branch of [raise] when the key is absent and when
    its value is the empty string. Lines 158-159 take the first version
    that is not ["all"] and keep ["latest"] when the generator is
    exhausted. The attribute read at line 156 is iterated as a list of
    dicts; any other value has no element with a key [version]. *)
Definition get (self : t) (app : string)
    : result (list ProjectedPatch * string) :=
  match app_names !! app with
  | Some (String c n as app_name) =>
      a ← getattr self app_name;
      match a with
      | Bucket patches =>
          let version :=
            match find (fun i => negb (String.eqb (p_version i) "all")) patches with
            | Some i => p_version i
            | None => "latest"
            end in
          ret (patches, version)
      | _ => raise (TypeError "not a list of patches")
      end
  | Some EmptyString | None =>
      raise (AppNotFound ("App " +:+ app +:+ " not supported yet."))
  end.

(** *** [include_exclude_patch] (lines 162-190) *)

(** [str.lower] on text in ASCII: a capital letter becomes the small
    letter, every other character is kept. Python's [str.lower] also
    changes letters outside ASCII, which this function keeps; what is
    proved with it is stated for names in ASCII, or does not depend on
    the letters. *)
Definition lower_char (c : ascii) : ascii :=
  let n := nat_of_ascii c in
  if (65 <=? n) && (n <=? 90) then ascii_of_nat (n + 32) else c.

Fixpoint lower (s : string) : string :=
  match s with
  | EmptyString => EmptyString
  | String c r => String (lower_char c) (lower r)
  end.

(** [s.replace(old, new)] for one-character [old] and [new]. *)
Fixpoint replace (old new : ascii) (s : string) : string :=
  match s with
  | EmptyString => EmptyString
  | String c r => String (if Ascii.eqb c old then new else c) (replace old new r)
  end.

(** The two kinds of object that line 188 compares: a requested name and
    the dicts of the universal bucket. *)
Inductive pyobject : Type :=
| PyStr (s : string)
| PyDict (p : ProjectedPatch).

(** [a == b]: objects of different types are never equal. *)
Definition py_eq (a b : pyobject) : bool :=
  match a, b with
  | PyStr s, PyStr s' => String.eqb s s'
  | PyDict p, PyDict p' => bool_decide (p = p')
  | PyStr _, PyDict _ | PyDict _, PyStr _ => false
  end.

(** [x in xs] on a list. *)
Definition py_in (x : pyobject) (xs : list pyobject) : bool :=
  existsb (py_eq x) xs.

(** [getattr(self, "universal_patch", [])] *)
Definition universal_patch_or_empty (self : t) : list pyobject :=
  match self !! "universal_patch" with
  | Some patches => PyDict <$> patches
  | None => []
  end.

(** Lines 180-190. [str.lower] is a builtin of Python and not code of
    the module: it is the parameter [str_lower]. *)
Definition include_exclude_patch_with (str_lower : string -> string)
    (self : t) (app : APP) (parser : list call)
    (patches : list ProjectedPatch) : list call :=
  let parser :=
    foldl (fun parser patch =>
             let normalized_patch := replace " " "-" (str_lower (p_name patch)) in
             if bool_decide (normalized_patch ∉ exclude_request app)
             then parser ++ [include normalized_patch]
             else parser ++ [exclude normalized_patch])
          parser patches in
  foldl (fun parser normalized_patch =>
           if negb (py_in (PyStr normalized_patch) (universal_patch_or_empty self))
           then parser ++ [include normalized_patch]
           else parser)
        parser (include_request app).

(** Lines 180-190 with [lower] for [str.lower], as it is on names in
    ASCII. *)
Definition include_exclude_patch (self : t) (app : APP) (parser : list call)
    (patches : list ProjectedPatch) : list call :=
  include_exclude_patch_with lower self app parser patches.

(** *** [get_app_configs] (lines 192-221) *)

(** [a > b] and [a < b] on [str]. *)
Definition str_gt (a b : string) : bool :=
  match String.compare a b with Gt => true | _ => false end.

Definition str_lt (a b : string) : bool :=
  match String.compare a b with Lt => true | _ => false end.

(** The branch of line 211 is taken for a version that is neither [None]
    nor the empty string; the call of the logger changes no state. *)
Definition get_app_configs (self : t) (app : APP)
    : result (list ProjectedPatch * APP) :=
  let experiment := false in
  '(total_patches, recommended_version) ← get self (app_name app);
  let '(recommended_version, experiment) :=
    match app_version app with
    | Some (String _ _ as app_version) =>
        let experiment :=
          if String.eqb app_version "latest"
             || str_gt app_version recommended_version
             || str_lt app_version recommended_version
          then true else experiment in
        (app_version, experiment)
    | Some EmptyString | None => (recommended_version, experiment)
    end in
  ret (total_patches, set_recommended_version app recommended_version experiment).

End Patches.

(** ** A run of the module

    The manifest of two patches, one without compatible packages and one
    for Spotify at versions 1.0 and 1.1, in the file [tmp/patches.json]. *)

Definition manifest_text : string :=
  dq "[{'name':'A','description':'d','compatiblePackages':[]}, {'name':'B','description':'d2','compatiblePackages':[{'name':'com.spotify.music','versions':['1.0','1.1']}]}]".

Definition disk : gmap string string :=
  {[ "tmp/patches.json" := manifest_text ]}.

Definition config : RevancedConfig := {| temp_folder := "tmp" |}.

(** An application descriptor before [Patches] has seen it. *)
Definition new_app (name : string) (version : option string)
    (include_request exclude_request : list string) : APP :=
  {| app_name := name; app_version := version;
     resource := {[ "patches_json" := "patches.json" ]};
     include_request := include_request; exclude_request := exclude_request;
     no_of_patches := 0; recommended_version := EmptyString;
     experiment := false |}.

(** The value of an entry of [revanced_app_ids]. *)
Definition tuple_of (value : string) : string * string := (value, "_" +:+ value).

(** ** What indexing adds to a bucket

    The contents of the buckets are stated with the definitions below:
    [projection] is the dict of one pair of a patch and a compatible
    package, and [contribution key patch] is what the body of the loop
    over the manifest appends to the attribute [key]. *)

Definition projection (patch : PatchDescriptor) (x : CompatiblePackage)
    : ProjectedPatch :=
  {| p_name := patch_name patch; p_description := patch_description patch;
     p_app := pkg_name x; p_version := default "all" (last (pkg_versions x)) |}.

Definition package_contribution (key : string) (patch : PatchDescriptor)
    (x : CompatiblePackage) : list ProjectedPatch :=
  match dict_get Patches._revanced_app_ids (pkg_name x) with
  | Some short =>
      if decide (key = "_" +:+ short) then [projection patch x] else []
  | None => []
  end.

Definition contribution (key : string) (patch : PatchDescriptor)
    : list ProjectedPatch :=
  (if decide (key = "universal_patch" /\ patch_compatiblePackages patch = [])
   then [Patches.universal_projection patch] else [])
  ++ flat_map (package_contribution key patch) (patch_compatiblePackages patch).

(** The names [getattr] finds on the class, whatever the instance. *)
Definition class_attr_names : list string :=
  dict_keys (Patches.class_attrs ∅).

(** Every bucket that indexing appends to exists. *)
Definition initialised (self : Patches.t) : Prop :=
  is_Some (self !! "universal_patch")
  /\ forall package short : string,
       dict_get Patches._revanced_app_ids package = Some short ->
       is_Some (self !! ("_" +:+ short)).

(** ** Normalized names, as the selection is described

    A name is in ASCII when all its characters are. The small letter of a
    capital letter stands at the same place in the alphabet; the
    normalized form of a name has the small letter for each capital
    letter and a hyphen for each space. *)

Definition is_ascii (s : string) : Prop :=
  Forall (fun c => nat_of_ascii c < 128) (list_ascii_of_string s).

Definition capital_letters : list ascii :=
  list_ascii_of_string "ABCDEFGHIJKLMNOPQRSTUVWXYZ".

Definition small_letters : list ascii :=
  list_ascii_of_string "abcdefghijklmnopqrstuvwxyz".

Definition small_letter (c : ascii) : ascii :=
  match List.find (fun pair => Ascii.eqb (fst pair) c)
                  (combine capital_letters small_letters) with
  | Some (_, small) => small
  | None => c
  end.

Definition lower_case (s : string) : string :=
  string_of_list_ascii (small_letter <$> list_ascii_of_string s).

Definition normalized_form (name : string) : string :=
  string_of_list_ascii
    ((fun c => if Ascii.eqb c " " then "-"%char else small_letter c)
     <$> list_ascii_of_string name).

(** The object that the constructor returns on the run for Spotify. *)
Definition run_object : Patches.t :=
  match Patches.__init__ disk config (new_app "spotify" None [] []) with
  | inr (self, _) => self
  | inl _ => ∅
  end.

(** The attributes that [fetch_patches] sets: the universal bucket and
    the bucket of every application. *)
Definition bucket_names : list string :=
  "universal_patch"
  :: ((fun short => "_" +:+ short) <$> dict_values Patches._revanced_app_ids).

(** * Properties *)

(** ** The error monad and loops *)

Lemma bind_inr {A B : Type} (a : A) (k : A -> result B) :
  (inr a : result A) ≫= k = k a.
Proof. reflexivity. Qed.

Lemma bind_inl {A B : Type} (e : exn) (k : A -> result B) :
  (inl e : result A) ≫= k = inl e.
Proof. reflexivity. Qed.

Lemma for_each_app {A S : Type} (xs ys : list A) (body : S -> A -> result S) (s : S) :
  for_each (xs ++ ys) body s = for_each xs body s ≫= for_each ys body.
Proof.
  revert s. induction xs as [|x xs IH]; intros s; simpl; [reflexivity|].
  destruct (body s x) as [e|s']; simpl; [reflexivity|apply IH].
Qed.

(** One step of the error monad. *)
Ltac step := cbn [mbind result_bind ret raise].

(** ** Ordered dictionaries *)

Lemma dict_get_elem_of {V : Type} (d : list (string * V)) (k : string) (v : V) :
  dict_get d k = Some v -> (k, v) ∈ d.
Proof.
  induction d as [|[k' v'] d IH]; simpl; [discriminate|].
  destruct (String.eqb_spec k' k) as [->|Hne].
  - intros [= ->]. left.
  - intros H. right. auto.
Qed.

Lemma dict_get_None {V : Type} (d : list (string * V)) (k : string) :
  dict_get d k = None <-> k ∉ dict_keys d.
Proof.
  induction d as [|[k' v'] d IH]; simpl.
  - split; [intros _; apply not_elem_of_nil | reflexivity].
  - rewrite not_elem_of_cons. destruct (String.eqb_spec k' k) as [->|Hne].
    + split; [discriminate | intros [[] _]; reflexivity].
    + rewrite IH. unfold dict_keys. split; [intros H; split; [congruence|exact H] | intros [_ H]; exact H].
Qed.

Lemma dict_get_unique {V : Type} (d : list (string * V)) (k : string) (v : V) :
  NoDup (dict_keys d) -> (k, v) ∈ d -> dict_get d k = Some v.
Proof.
  induction d as [|[k' v'] d IH]; simpl; intros Hnd Hin.
  - by apply elem_of_nil in Hin.
  - apply NoDup_cons in Hnd as [Hk' Hnd].
    apply elem_of_cons in Hin as [[= -> ->]|Hin].
    + by rewrite String.eqb_refl.
    + destruct (String.eqb_spec k' k) as [->|Hne]; [|auto].
      exfalso. apply Hk'. unfold dict_keys.
      apply (list_elem_of_fmap_2 fst) in Hin. exact Hin.
Qed.

(** ** The registry *)

Section Registry.
Import Patches.

Lemma package_ids_unique : NoDup (dict_keys _revanced_app_ids).
Proof. apply (bool_decide_unpack _). vm_compute. exact I. Qed.

Lemma short_names_unique : NoDup (dict_values _revanced_app_ids).
Proof. apply (bool_decide_unpack _). vm_compute. exact I. Qed.

Lemma revanced_app_ids_get (package : string) :
  dict_get revanced_app_ids package = tuple_of <$> dict_get _revanced_app_ids package.
Proof.
  unfold revanced_app_ids. induction _revanced_app_ids as [|[k v] d IH]; simpl; [reflexivity|].
  destruct (String.eqb k package); [reflexivity|apply IH].
Qed.

Lemma revanced_app_ids_values :
  dict_values revanced_app_ids = tuple_of <$> dict_values _revanced_app_ids.
Proof.
  unfold revanced_app_ids, dict_values.
  induction _revanced_app_ids as [|[k v] d IH]; simpl; [reflexivity|]. by rewrite IH.
Qed.

(** The scan of [get_package_name] over a registry with distinct short
    names finds the package a short name belongs to. *)
Lemma find_short_name (d : list (string * string)) (package short : string) :
  NoDup (dict_values d) -> (package, short) ∈ d ->
  find (fun '(package, app_tuple) => String.eqb (fst app_tuple) short)
       (map (fun '(key, value) => (key, (value, "_" +:+ value))) d)
  = Some (package, (short, "_" +:+ short)).
Proof.
  induction d as [|[k v] d IH]; simpl; intros Hnd Hin.
  - by apply elem_of_nil in Hin.
  - apply NoDup_cons in Hnd as [Hv Hnd].
    apply elem_of_cons in Hin as [[= -> ->]|Hin].
    + by rewrite String.eqb_refl.
    + destruct (String.eqb_spec v short) as [->|Hne]; [|auto].
      exfalso. apply Hv. apply (list_elem_of_fmap_2 snd) in Hin. exact Hin.
Qed.

Lemma find_short_name_None (d : list (string * string)) (app : string) :
  app ∉ dict_values d ->
  find (fun '(package, app_tuple) => String.eqb (fst app_tuple) app)
       (map (fun '(key, value) => (key, (value, "_" +:+ value))) d)
  = None.
Proof.
  induction d as [|[k v] d IH]; simpl; intros Hin; [reflexivity|].
  apply not_elem_of_cons in Hin as [Hne Hin].
  destruct (String.eqb_spec v app) as [->|_]; [done|auto].
Qed.

(** The dict comprehension of [get]: a key for every short name, and for
    nothing else. *)
Lemma foldl_insert_lookup (l : list (string * string)) (m : gmap string string) (k : string) :
  NoDup l.*1 ->
  foldl (fun d value => <[fst value := snd value]> d) m l !! k
  = match dict_get l k with Some v => Some v | None => m !! k end.
Proof.
  revert m. induction l as [|[k' v'] l IH]; simpl; intros m Hnd; [reflexivity|].
  apply NoDup_cons in Hnd as [Hk' Hnd]. rewrite IH by done.
  destruct (String.eqb_spec k' k) as [->|Hne].
  - assert (dict_get l k = None) as -> by by apply dict_get_None.
    apply lookup_insert_eq.
  - destruct (dict_get l k); [reflexivity|]. by apply lookup_insert_ne.
Qed.

Lemma app_names_lookup (app : string) :
  app_names !! app
  = if bool_decide (app ∈ dict_values _revanced_app_ids) then Some ("_" +:+ app) else None.
Proof.
  unfold app_names. rewrite revanced_app_ids_values. rewrite foldl_insert_lookup.
  2:{ apply (bool_decide_unpack _). vm_compute. exact I. }
  rewrite lookup_empty.
  generalize (dict_values _revanced_app_ids). intros l.
  induction l as [|v l IH]; simpl; [reflexivity|].
  destruct (String.eqb_spec v app) as [->|Hne].
  - rewrite bool_decide_eq_true_2; [reflexivity|left].
  - etransitivity; [exact IH|]. apply (f_equal (fun b : bool => if b then _ else _)).
    apply bool_decide_ext. rewrite elem_of_cons.
    split; [auto | intros [Heq|Hin]; [congruence|exact Hin]].
Qed.

End Registry.

(** ** Short names and package ids *)

(** C9: for every package id [p] of the registry, [get_package_name]
    applied to the short name that [support_app] gives for [p] returns
    [p]. *)
Theorem get_package_name_support_app (p short : string) :
  dict_get Patches.support_app p = Some short ->
  Patches.get_package_name short = inr p.
Proof.
  intros Hp. apply dict_get_elem_of in Hp.
  unfold Patches.get_package_name, Patches.revanced_app_ids.
  rewrite (find_short_name _ p short); [reflexivity| |exact Hp].
  apply short_names_unique.
Qed.

Lemma get_package_name_support_app_witness :
  dict_get Patches.support_app "com.spotify.music" = Some "spotify"
  /\ Patches.get_package_name "spotify" = inr "com.spotify.music".
Proof.
  split; [reflexivity|].
  apply (get_package_name_support_app "com.spotify.music" "spotify"). reflexivity.
Defined.

(** C8: for every string that is the short name of no entry of the
    registry, [get_package_name] and [get] both raise [AppNotFound]. *)
Theorem unknown_app_not_found (app : string) :
  app ∉ dict_values Patches._revanced_app_ids ->
  Patches.get_package_name app
    = inl (AppNotFound ("App " +:+ app +:+ " not supported yet."))
  /\ forall self : Patches.t,
       Patches.get self app
       = inl (AppNotFound ("App " +:+ app +:+ " not supported yet.")).
Proof.
  intros Happ. split.
  - unfold Patches.get_package_name, Patches.revanced_app_ids.
    by rewrite find_short_name_None.
  - intros self. unfold Patches.get. rewrite app_names_lookup.
    by rewrite bool_decide_eq_false_2.
Qed.

Lemma unknown_app_not_found_witness :
  Patches.get_package_name "Spotify"
    = inl (AppNotFound "App Spotify not supported yet.")
  /\ forall self : Patches.t,
       Patches.get self "Spotify"
       = inl (AppNotFound "App Spotify not supported yet.").
Proof.
  apply (unknown_app_not_found "Spotify").
  apply (bool_decide_unpack _). vm_compute. exact I.
Defined.

(** ** The recommended version *)

(** The generator of line 159 skips the entries whose version is
    ["all"]. *)
Lemma find_not_all_skip (pre : list ProjectedPatch) (rest : list ProjectedPatch) :
  Forall (fun j => p_version j = "all") pre ->
  find (fun i => negb (String.eqb (p_version i) "all")) (pre ++ rest)
  = find (fun i => negb (String.eqb (p_version i) "all")) rest.
Proof.
  induction 1 as [|j pre Hj _ IH]; simpl; [reflexivity|].
  rewrite Hj. simpl. exact IH.
Qed.

(** C4: for every bucket, [get] returns as version that of the first
    entry, in the order of the bucket, whose version is not ["all"], and
    ["latest"] when the bucket is empty or all its versions are ["all"]. *)
Theorem get_recommended_version (self : Patches.t) (app : string)
    (bucket : list ProjectedPatch) :
  app ∈ dict_values Patches._revanced_app_ids ->
  self !! ("_" +:+ app) = Some bucket ->
  exists version : string,
    Patches.get self app = inr (bucket, version)
    /\ (Forall (fun i => p_version i = "all") bucket -> version = "latest")
    /\ (forall pre i suf,
          bucket = pre ++ i :: suf ->
          Forall (fun j => p_version j = "all") pre ->
          p_version i <> "all" ->
          version = p_version i).
Proof.
  intros Happ Hbucket. unfold Patches.get. rewrite app_names_lookup.
  rewrite bool_decide_eq_true_2 by exact Happ. simpl.
  unfold Patches.getattr. simpl in Hbucket. rewrite Hbucket. simpl.
  eexists. split; [reflexivity|]. split.
  - intros Hall.
    rewrite <- (app_nil_r bucket), (find_not_all_skip bucket []) by exact Hall.
    reflexivity.
  - intros pre i suf -> Hpre Hi. rewrite find_not_all_skip by exact Hpre. simpl.
    destruct (String.eqb_spec (p_version i) "all") as [Heq|_]; [done|reflexivity].
Qed.

Lemma get_recommended_version_witness :
  exists version : string,
    Patches.get
      {[ "_spotify" :=
           [ {| p_name := "A"; p_description := "d";
                p_app := "com.spotify.music"; p_version := "all" |};
             {| p_name := "B"; p_description := "d2";
                p_app := "com.spotify.music"; p_version := "1.1" |} ] ]}
      "spotify"
    = inr ([ {| p_name := "A"; p_description := "d";
                p_app := "com.spotify.music"; p_version := "all" |};
             {| p_name := "B"; p_description := "d2";
                p_app := "com.spotify.music"; p_version := "1.1" |} ],
           version)
    /\ version = "1.1".
Proof.
  destruct (get_recommended_version
    {[ "_spotify" :=
         [ {| p_name := "A"; p_description := "d";
              p_app := "com.spotify.music"; p_version := "all" |};
           {| p_name := "B"; p_description := "d2";
              p_app := "com.spotify.music"; p_version := "1.1" |} ] ]}
    "spotify" _
    ltac:(apply (bool_decide_unpack _); vm_compute; exact I)
    ltac:(reflexivity)) as (version & Hget & _ & Hfirst).
  exists version. split; [exact Hget|].
  apply (Hfirst [ {| p_name := "A"; p_description := "d";
                     p_app := "com.spotify.music"; p_version := "all" |} ]
                {| p_name := "B"; p_description := "d2";
                   p_app := "com.spotify.music"; p_version := "1.1" |} []).
  - reflexivity.
  - repeat constructor.
  - discriminate.
Defined.

(** ** Indexing *)

Section Indexing.
Import Patches.

Lemma last_from_last (v : string) (rest : list string) :
  last_from v rest = default "all" (last (v :: rest)).
Proof.
  revert v. induction rest as [|v' rest IH]; intros v; [reflexivity|].
  simpl last_from. rewrite IH. reflexivity.
Qed.

Lemma last_or_all_last (version : list string) :
  last_or_all version = default "all" (last version).
Proof. destruct version as [|v rest]; [reflexivity|apply last_from_last]. Qed.

Lemma registry_injective (a b short : string) :
  dict_get _revanced_app_ids a = Some short ->
  dict_get _revanced_app_ids b = Some short ->
  a = b.
Proof.
  intros Ha Hb. apply dict_get_elem_of in Ha, Hb.
  pose proof (find_short_name _ a short short_names_unique Ha) as Fa.
  pose proof (find_short_name _ b short short_names_unique Hb) as Fb.
  congruence.
Qed.

Lemma fmap_app_nil (o : option (list ProjectedPatch)) :
  (fun l => l ++ []) <$> o = o.
Proof. destruct o as [l|]; simpl; [by rewrite app_nil_r|reflexivity]. Qed.

Lemma initialised_fmap (self self' : t) (f : string -> list ProjectedPatch -> list ProjectedPatch) :
  initialised self ->
  (forall k, self' !! k = f k <$> self !! k) ->
  initialised self'.
Proof.
  intros [Hu Hb] Hk. split.
  - rewrite Hk. by apply fmap_is_Some.
  - intros package short Hp. rewrite Hk. apply fmap_is_Some. eauto.
Qed.

(** A loop whose body appends to buckets appends, bucket by bucket, what
    its rounds append. *)
Lemma for_each_appends {A : Type} (body : t -> A -> result t)
    (contrib : string -> A -> list ProjectedPatch) :
  (forall self x, initialised self ->
     exists self', body self x = inr self'
       /\ forall k, self' !! k = (fun l => l ++ contrib k x) <$> self !! k) ->
  forall xs self, initialised self ->
    exists self', for_each xs body self = inr self'
      /\ forall k, self' !! k = (fun l => l ++ flat_map (contrib k) xs) <$> self !! k.
Proof.
  intros Hbody xs. induction xs as [|x xs IH]; intros self Hself; simpl.
  - exists self. split; [reflexivity|]. intros k. by rewrite fmap_app_nil.
  - destruct (Hbody self x Hself) as (s1 & -> & Hs1). simpl.
    destruct (IH s1) as (s2 & -> & Hs2).
    { eapply initialised_fmap; [exact Hself|exact Hs1]. }
    exists s2. split; [reflexivity|]. intros k. rewrite Hs2, Hs1.
    destruct (self !! k) as [l|]; simpl; [|reflexivity]. by rewrite app_assoc.
Qed.

Lemma getattr_append_spec (self : t) (name : string) (p : ProjectedPatch) :
  is_Some (self !! name) ->
  exists self', getattr_append self name p = inr self'
    /\ forall k, self' !! k
         = (fun l => l ++ if decide (k = name) then [p] else []) <$> self !! k.
Proof.
  intros [l Hl]. unfold getattr_append, getattr. rewrite Hl. simpl.
  eexists. split; [reflexivity|]. intros k. destruct (decide (k = name)) as [->|Hne].
  - by rewrite lookup_insert_eq, Hl.
  - rewrite lookup_insert_ne by done. by rewrite fmap_app_nil.
Qed.

Lemma index_package_spec (patch : PatchDescriptor) (self : t) (x : CompatiblePackage) :
  initialised self ->
  exists self', index_package patch self x = inr self'
    /\ forall k, self' !! k = (fun l => l ++ package_contribution k patch x) <$> self !! k.
Proof.
  intros [_ Hb]. unfold index_package, package_contribution.
  rewrite revanced_app_ids_get.
  destruct (dict_get _revanced_app_ids (pkg_name x)) as [short|] eqn:Hx; simpl.
  - rewrite last_or_all_last. apply getattr_append_spec. eauto.
  - exists self. split; [reflexivity|]. intros k. by rewrite fmap_app_nil.
Qed.

Lemma index_patch_spec (self : t) (patch : PatchDescriptor) :
  initialised self ->
  exists self', index_patch self patch = inr self'
    /\ forall k, self' !! k = (fun l => l ++ contribution k patch) <$> self !! k.
Proof.
  intros Hself. unfold index_patch, contribution.
  destruct (patch_compatiblePackages patch) as [|x xs] eqn:Hcp.
  - destruct (getattr_append_spec self "universal_patch" (universal_projection patch))
      as (s1 & -> & Hs1); [apply Hself|]. simpl.
    exists s1. split; [reflexivity|]. intros k. rewrite Hs1.
    destruct (decide (k = "universal_patch")) as [->|Hne].
    + rewrite decide_True by done. by rewrite app_nil_r.
    + rewrite decide_False by tauto. reflexivity.
  - simpl mbind.
    destruct (for_each_appends (index_package patch) (fun k => package_contribution k patch)
                (index_package_spec patch) (x :: xs) self Hself) as (s1 & Hrun & Hs1).
    exists s1. split; [exact Hrun|]. intros k. rewrite Hs1.
    rewrite decide_False by (intros [_ [=]]). reflexivity.
Qed.

Lemma init_app_names :
  omap (fun x => snd <$> dict_get revanced_app_ids x) (dict_keys revanced_app_ids)
  = (fun short => "_" +:+ short) <$> dict_values _revanced_app_ids.
Proof. vm_compute. reflexivity. Qed.

Lemma foldl_setattr_lookup (names : list string) (self : t) (k : string) :
  foldl (fun self app_name => setattr self app_name []) self names !! k
  = if decide (k ∈ names) then Some [] else self !! k.
Proof.
  revert self. induction names as [|n names IH]; intros self; cbn [foldl].
  - rewrite decide_False; [reflexivity|apply not_elem_of_nil].
  - rewrite IH. unfold setattr. destruct (decide (k ∈ names)) as [Hin|Hnin].
    + rewrite decide_True; [reflexivity|by right].
    + destruct (decide (k = n)) as [->|Hne].
      * rewrite lookup_insert_eq. rewrite decide_True; [reflexivity|left].
      * rewrite lookup_insert_ne by done.
        rewrite decide_False; [reflexivity|].
        rewrite elem_of_cons. tauto.
Qed.

Lemma init_buckets_lookup (self : t) (k : string) :
  init_buckets self !! k
  = if decide (k = "universal_patch"
               \/ k ∈ (fun short => "_" +:+ short) <$> dict_values _revanced_app_ids)
    then Some [] else self !! k.
Proof.
  unfold init_buckets, setattr. rewrite init_app_names.
  destruct (decide (k = "universal_patch")) as [->|Hne].
  - rewrite lookup_insert_eq. rewrite decide_True; [reflexivity|by left].
  - rewrite lookup_insert_ne by done. rewrite foldl_setattr_lookup.
    destruct (decide (k ∈ _)) as [Hin|Hnin].
    + rewrite decide_True; [reflexivity|by right].
    + rewrite decide_False; [reflexivity|tauto].
Qed.

Lemma registered_short (package short : string) :
  dict_get _revanced_app_ids package = Some short ->
  short ∈ dict_values _revanced_app_ids.
Proof.
  intros H. apply dict_get_elem_of in H.
  apply (list_elem_of_fmap_2 snd) in H. exact H.
Qed.

Lemma init_buckets_initialised (self : t) : initialised (init_buckets self).
Proof.
  split.
  - rewrite init_buckets_lookup. rewrite decide_True; [eauto|by left].
  - intros package short Hp. rewrite init_buckets_lookup.
    rewrite decide_True; [eauto|]. right.
    apply (list_elem_of_fmap_2 (fun short => "_" +:+ short)).
    eapply registered_short, Hp.
Qed.

(** The buckets after the loop over the manifest. *)
Lemma index_patches_spec (self : t) (patches : list PatchDescriptor) :
  exists self', index_patches self patches = inr self'
    /\ forall k, self' !! k
         = (fun l => l ++ flat_map (contribution k) patches) <$> init_buckets self !! k.
Proof.
  unfold index_patches.
  apply (for_each_appends index_patch contribution index_patch_spec).
  apply init_buckets_initialised.
Qed.

End Indexing.

Section Buckets.
Import Patches.

Lemma app_key_not_universal (short : string) : "_" +:+ short <> "universal_patch".
Proof. discriminate. Qed.

(** What a patch adds to the bucket of a registered package: one dict
    for each of its entries for that package. *)
Lemma contribution_app_bucket (package short : string) (patch : PatchDescriptor) :
  dict_get _revanced_app_ids package = Some short ->
  contribution ("_" +:+ short) patch
  = (fun x => {| p_name := patch_name patch;
                 p_description := patch_description patch;
                 p_app := package;
                 p_version := default "all" (last (pkg_versions x)) |})
    <$> filter (fun x => pkg_name x = package) (patch_compatiblePackages patch).
Proof.
  intros Hp. unfold contribution.
  rewrite decide_False by (intros [H _]; by apply app_key_not_universal in H).
  cbn [app]. induction (patch_compatiblePackages patch) as [|x xs IH]; [reflexivity|].
  cbn [flat_map]. rewrite IH. unfold package_contribution at 1.
  destruct (dict_get _revanced_app_ids (pkg_name x)) as [short'|] eqn:Hx.
  - destruct (decide ("_" +:+ short = "_" +:+ short')) as [Heq|Hne].
    + assert (short' = short) as -> by (by injection Heq).
      pose proof (registry_injective _ _ _ Hx Hp) as Hpkg.
      rewrite filter_cons_True by exact Hpkg.
      unfold projection. rewrite Hpkg. reflexivity.
    + rewrite filter_cons_False; [reflexivity|].
      intros Hpkg. rewrite Hpkg in Hx. congruence.
  - rewrite filter_cons_False; [reflexivity|].
    intros Hpkg. rewrite Hpkg in Hx. congruence.
Qed.

Lemma package_contribution_unregistered (key : string) (patch : PatchDescriptor)
    (x : CompatiblePackage) :
  pkg_name x ∉ dict_keys revanced_app_ids ->
  package_contribution key patch x = [].
Proof.
  intros Hx. apply dict_get_None in Hx. rewrite revanced_app_ids_get in Hx.
  unfold package_contribution.
  destruct (dict_get _revanced_app_ids (pkg_name x)); [discriminate|reflexivity].
Qed.

(** A patch adds what it adds without an entry for an unregistered
    package, and nothing when it has no other entry. *)
Lemma contribution_skip (key name description : string)
    (xs : list CompatiblePackage) (x : CompatiblePackage) (ys : list CompatiblePackage) :
  pkg_name x ∉ dict_keys revanced_app_ids ->
  contribution key {| patch_name := name; patch_description := description;
                      patch_compatiblePackages := xs ++ x :: ys |}
  = flat_map (contribution key)
      match xs ++ ys with
      | [] => []
      | others =>
          [ {| patch_name := name; patch_description := description;
               patch_compatiblePackages := others |} ]
      end.
Proof.
  intros Hx. unfold contribution at 1. cbn [patch_compatiblePackages].
  rewrite decide_False by (intros [_ H]; by destruct xs).
  rewrite flat_map_app. cbn [flat_map app].
  rewrite package_contribution_unregistered by exact Hx. cbn [app].
  rewrite <- flat_map_app.
  destruct (xs ++ ys) as [|o others] eqn:Ho; [reflexivity|].
  cbn [flat_map]. rewrite app_nil_r. unfold contribution.
  cbn [patch_compatiblePackages].
  rewrite decide_False by (intros [_ [=]]). reflexivity.
Qed.

End Buckets.

(** C5: for every manifest and every registered package, the bucket of
    the package holds, in the order of the manifest, one dict for each
    entry of a patch for that package, and the version of the dict is the
    last element of the entry's versions, or ["all"] when the entry has
    no version. *)
Theorem index_projects_last_version (self : Patches.t)
    (patches : list PatchDescriptor) (package short : string) :
  dict_get Patches._revanced_app_ids package = Some short ->
  exists self' : Patches.t,
    Patches.index_patches self patches = inr self'
    /\ self' !! ("_" +:+ short)
       = Some (flat_map
                 (fun patch =>
                    (fun x => {| p_name := patch_name patch;
                                 p_description := patch_description patch;
                                 p_app := package;
                                 p_version := default "all" (last (pkg_versions x)) |})
                    <$> filter (fun x => pkg_name x = package)
                               (patch_compatiblePackages patch))
                 patches).
Proof.
  intros Hp. destruct (index_patches_spec self patches) as (self' & Hrun & Hk).
  exists self'. split; [exact Hrun|]. rewrite Hk, init_buckets_lookup.
  rewrite decide_True.
  2:{ right. apply (list_elem_of_fmap_2 (fun short => "_" +:+ short)).
      eapply registered_short, Hp. }
  cbn [fmap option_fmap option_map app]. f_equal. clear Hrun Hk.
  induction patches as [|patch patches IH]; [reflexivity|].
  cbn [flat_map]. rewrite IH, (contribution_app_bucket package short) by exact Hp.
  reflexivity.
Qed.

Lemma index_projects_last_version_witness :
  exists self' : Patches.t,
    Patches.index_patches ∅
      [ {| patch_name := "B"; patch_description := "d2";
           patch_compatiblePackages :=
             [ {| pkg_name := "com.spotify.music"; pkg_versions := ["1.0"; "2.0"] |};
               {| pkg_name := "com.twitter.android"; pkg_versions := [] |} ] |} ]
    = inr self'
    /\ self' !! "_spotify"
       = Some [ {| p_name := "B"; p_description := "d2";
                   p_app := "com.spotify.music"; p_version := "2.0" |} ].
Proof.
  apply (index_projects_last_version ∅
    [ {| patch_name := "B"; patch_description := "d2";
         patch_compatiblePackages :=
           [ {| pkg_name := "com.spotify.music"; pkg_versions := ["1.0"; "2.0"] |};
             {| pkg_name := "com.twitter.android"; pkg_versions := [] |} ] |} ]
    "com.spotify.music" "spotify").
  reflexivity.
Defined.

(** C6: when the loop over the manifest reaches a patch whose
    [compatiblePackages] is empty, after any patches, the patch is
    appended once to the universal bucket, as a dict with app
    ["universal"] and version ["all"], and no other attribute changes. *)
Theorem universal_patch_projected_once (self : Patches.t)
    (before : list PatchDescriptor) (patch : PatchDescriptor)
    (after : list PatchDescriptor) :
  patch_compatiblePackages patch = [] ->
  exists (s : Patches.t) (universal : list ProjectedPatch),
    Patches.index_patches self before = inr s
    /\ s !! "universal_patch" = Some universal
    /\ Patches.index_patch s patch
       = inr (<["universal_patch" :=
                  universal ++ [ {| p_name := patch_name patch;
                                    p_description := patch_description patch;
                                    p_app := "universal";
                                    p_version := "all" |} ]]> s)
    /\ Patches.index_patches self (before ++ patch :: after)
       = for_each after Patches.index_patch
           (<["universal_patch" :=
                universal ++ [ {| p_name := patch_name patch;
                                  p_description := patch_description patch;
                                  p_app := "universal";
                                  p_version := "all" |} ]]> s).
Proof.
  intros Hcp. destruct (index_patches_spec self before) as (s & Hrun & Hk).
  assert (is_Some (s !! "universal_patch")) as [universal Hu].
  { rewrite Hk, init_buckets_lookup. rewrite decide_True by (by left). by eexists. }
  assert (Patches.index_patch s patch
          = inr (<["universal_patch" :=
                     universal ++ [Patches.universal_projection patch]]> s)) as Hstep.
  { unfold Patches.index_patch. rewrite Hcp.
    unfold Patches.getattr_append, Patches.getattr. rewrite Hu. reflexivity. }
  exists s, universal. split; [exact Hrun|]. split; [exact Hu|]. split; [exact Hstep|].
  unfold Patches.index_patches in *. rewrite for_each_app, Hrun.
  cbn [mbind result_bind for_each]. rewrite Hstep. reflexivity.
Qed.

Lemma universal_patch_projected_once_witness :
  exists (s : Patches.t) (universal : list ProjectedPatch),
    Patches.index_patches ∅ [] = inr s
    /\ s !! "universal_patch" = Some universal
    /\ Patches.index_patch s
         {| patch_name := "A"; patch_description := "d";
            patch_compatiblePackages := [] |}
       = inr (<["universal_patch" :=
                  universal ++ [ {| p_name := "A"; p_description := "d";
                                    p_app := "universal"; p_version := "all" |} ]]> s)
    /\ Patches.index_patches ∅
         ([] ++ {| patch_name := "A"; patch_description := "d";
                   patch_compatiblePackages := [] |} :: [])
       = for_each [] Patches.index_patch
           (<["universal_patch" :=
                universal ++ [ {| p_name := "A"; p_description := "d";
                                  p_app := "universal"; p_version := "all" |} ]]> s).
Proof.
  apply (universal_patch_projected_once ∅ []
           {| patch_name := "A"; patch_description := "d";
              patch_compatiblePackages := [] |} []).
  reflexivity.
Defined.

(** C7: an entry of [compatiblePackages] whose package is not in the
    registry is skipped: indexing raises nothing and ends in the state it
    ends in on the manifest without that entry, and without the patch
    when the patch has no other entry. *)
Theorem unregistered_package_skipped (self : Patches.t)
    (before : list PatchDescriptor) (name description : string)
    (xs : list CompatiblePackage) (x : CompatiblePackage)
    (ys : list CompatiblePackage) (after : list PatchDescriptor) :
  pkg_name x ∉ dict_keys Patches.revanced_app_ids ->
  exists self' : Patches.t,
    Patches.index_patches self
      (before
       ++ {| patch_name := name; patch_description := description;
             patch_compatiblePackages := xs ++ x :: ys |} :: after)
    = inr self'
    /\ Patches.index_patches self
         (before
          ++ match xs ++ ys with
             | [] => []
             | others =>
                 [ {| patch_name := name; patch_description := description;
                      patch_compatiblePackages := others |} ]
             end
          ++ after)
       = inr self'.
Proof.
  intros Hx.
  destruct (index_patches_spec self
    (before ++ {| patch_name := name; patch_description := description;
                  patch_compatiblePackages := xs ++ x :: ys |} :: after))
    as (s1 & Hrun1 & Hk1).
  destruct (index_patches_spec self
    (before ++ match xs ++ ys with
               | [] => []
               | others =>
                   [ {| patch_name := name; patch_description := description;
                        patch_compatiblePackages := others |} ]
               end ++ after))
    as (s2 & Hrun2 & Hk2).
  exists s1. split; [exact Hrun1|]. rewrite Hrun2. f_equal.
  apply map_eq. intros k. rewrite Hk1, Hk2.
  rewrite !flat_map_app. cbn [flat_map].
  rewrite (contribution_skip k name description xs x ys) by exact Hx.
  reflexivity.
Qed.

Lemma unregistered_package_skipped_witness :
  exists self' : Patches.t,
    Patches.index_patches ∅
      ([] ++ {| patch_name := "C"; patch_description := "d3";
                patch_compatiblePackages :=
                  [] ++ {| pkg_name := "org.example.app"; pkg_versions := ["1.0"] |} :: [] |}
          :: [])
    = inr self'
    /\ Patches.index_patches ∅ ([] ++ [] ++ []) = inr self'.
Proof.
  apply (unregistered_package_skipped ∅ [] "C" "d3" []
           {| pkg_name := "org.example.app"; pkg_versions := ["1.0"] |} [] []).
  apply (bool_decide_unpack _). vm_compute. exact I.
Defined.

(** ** The patch count *)

Lemma class_attrs_keys (self : Patches.t) :
  dict_keys (Patches.class_attrs self) = class_attr_names.
Proof. reflexivity. Qed.

Lemma short_name_of_key (key : string) :
  key ∈ (fun short => "_" +:+ short) <$> dict_values Patches._revanced_app_ids ->
  exists short, key = "_" +:+ short /\ short ∈ dict_values Patches._revanced_app_ids.
Proof. intros H. apply list_elem_of_fmap in H as (short & -> & H). eauto. Qed.

(** The names of the class that begin with an underscore: the class
    attribute [_revanced_app_ids], and names with two underscores. *)
Lemma class_attr_names_underscore (name : string) :
  "_" +:+ name ∈ class_attr_names ->
  name = "revanced_app_ids" \/ exists rest : string, name = String "_" rest.
Proof.
  intros H. change ("_" +:+ name) with (String "_" name) in H.
  vm_compute class_attr_names in H.
  repeat (apply elem_of_cons in H as [H|H];
          [first [discriminate H | injection H as ->; first [by left | right; eexists; reflexivity]]|]).
  by apply elem_of_nil in H.
Qed.

(** When the application is registered, [fetch_patches] returns: the
    object is the one indexing ends in, and the count is the length of
    the bucket of the application. *)
Lemma fetch_patches_registered (fs : gmap string string) (self : Patches.t)
    (config : RevancedConfig) (app : APP) (file : string) (doc : json.value)
    (patches : list PatchDescriptor) :
  resource app !! "patches_json" = Some file ->
  PatchLoader.load_patches fs (temp_folder config +:+ "/" +:+ file) = inr doc ->
  manifest_of_json doc = inr patches ->
  app_name app ∈ dict_values Patches._revanced_app_ids ->
  exists (self' : Patches.t) (bucket : list ProjectedPatch),
    Patches.index_patches self patches = inr self'
    /\ self' !! ("_" +:+ app_name app) = Some bucket
    /\ Patches.fetch_patches fs self config app
       = inr (self', set_no_of_patches app (length bucket)).
Proof.
  intros Hfile Hload Hdoc Happ.
  destruct (index_patches_spec self patches) as (self' & Hrun & Hk).
  assert (is_Some (self' !! ("_" +:+ app_name app))) as [bucket Hb].
  { rewrite Hk, init_buckets_lookup. rewrite decide_True; [by eexists|].
    right. by apply (list_elem_of_fmap_2 (fun short => "_" +:+ short)). }
  exists self', bucket. split; [exact Hrun|]. split; [exact Hb|].
  unfold Patches.fetch_patches. rewrite Hfile. step.
  rewrite Hload. step. rewrite Hdoc. step.
  unfold Patches.index_and_count. rewrite Hrun. step.
  unfold Patches.getattr. rewrite Hb. reflexivity.
Qed.




(** ** The version policy *)

Lemma compare_same (s : string) : String.compare s s = Eq.
Proof.
  pose proof (String.compare_antisym s s) as H.
  destruct (String.compare s s); [reflexivity|discriminate H|discriminate H].
Qed.

Lemma str_gt_irrefl (s : string) : Patches.str_gt s s = false.
Proof. unfold Patches.str_gt. by rewrite compare_same. Qed.

Lemma str_lt_irrefl (s : string) : Patches.str_lt s s = false.
Proof. unfold Patches.str_lt. by rewrite compare_same. Qed.

(** Two versions are different exactly when one is above the other. *)
Lemma str_gt_or_lt (a b : string) :
  Patches.str_gt a b || Patches.str_lt a b = negb (String.eqb a b).
Proof.
  unfold Patches.str_gt, Patches.str_lt.
  destruct (String.eqb_spec a b) as [->|Hne].
  - by rewrite compare_same.
  - destruct (String.compare a b) eqn:Hc; try reflexivity.
    by apply String.compare_eq_iff in Hc.
Qed.

(** The whole policy: with a request, the version is the request, and
    the flag says that the request is ["latest"] or is not the version of
    the bucket; without one, the version is that of the bucket and the
    flag is off. *)
Lemma get_app_configs_policy (self : Patches.t) (app : APP)
    (total : list ProjectedPatch) (recommended : string) :
  Patches.get self (app_name app) = inr (total, recommended) ->
  Patches.get_app_configs self app
  = inr (total,
         match app_version app with
         | Some (String c v' as v) =>
             set_recommended_version app v
               (String.eqb v "latest" || negb (String.eqb v recommended))
         | Some EmptyString | None =>
             set_recommended_version app recommended false
         end).
Proof.
  intros Hget. unfold Patches.get_app_configs. rewrite Hget. step.
  destruct (app_version app) as [[|c v']|]; try reflexivity.
  rewrite <- orb_assoc, str_gt_or_lt.
  by destruct (_ || _).
Qed.

(** C1, as the code has it: when the caller asked for a version that is
    the version [get] resolves, and not ["latest"], [get_app_configs]
    keeps that version and sets the experimental flag to false. *)
Theorem equal_request_not_experimental (self : Patches.t) (app : APP)
    (total : list ProjectedPatch) (v : string) :
  app_version app = Some v ->
  v <> EmptyString ->
  v <> "latest" ->
  Patches.get self (app_name app) = inr (total, v) ->
  Patches.get_app_configs self app
  = inr (total, set_recommended_version app v false).
Proof.
  intros Hv Hne Hlatest Hget.
  rewrite (get_app_configs_policy self app total v Hget), Hv.
  destruct v as [|c v']; [done|].
  rewrite String.eqb_refl.
  destruct (String.eqb_spec (String c v') "latest"); [done|reflexivity].
Qed.

Lemma equal_request_not_experimental_witness :
  Patches.get_app_configs
    {[ "_spotify" := [ {| p_name := "B"; p_description := "d2";
                          p_app := "com.spotify.music"; p_version := "1.1" |} ] ]}
    (new_app "spotify" (Some "1.1") [] [])
  = inr ([ {| p_name := "B"; p_description := "d2";
              p_app := "com.spotify.music"; p_version := "1.1" |} ],
         set_recommended_version (new_app "spotify" (Some "1.1") [] []) "1.1" false).
Proof.
  apply (equal_request_not_experimental
           {[ "_spotify" := [ {| p_name := "B"; p_description := "d2";
                                 p_app := "com.spotify.music"; p_version := "1.1" |} ] ]}
           (new_app "spotify" (Some "1.1") [] [])).
  - reflexivity.
  - discriminate.
  - discriminate.
  - vm_compute. reflexivity.
Defined.

(** C1 as stated fails: on the manifest of the run, the caller asks for
    Spotify at 1.1, which is the version [get] resolves and is not
    ["latest"], and the flag that [get_app_configs] sets is false. *)
Lemma equal_request_flag_is_false :
  match Patches.__init__ disk config (new_app "spotify" (Some "1.1") [] []) with
  | inr (self, app) =>
      match Patches.get self (app_name app), Patches.get_app_configs self app with
      | inr (_, recommended), inr (_, app') =>
          app_version app = Some recommended
          /\ recommended <> "latest"
          /\ experiment app' = false
      | _, _ => False
      end
  | inl _ => False
  end.
Proof. vm_compute. split; [reflexivity|]. split; [discriminate|reflexivity]. Qed.

(** ** Loading the manifest *)

(** The decoder raises nothing but [JSONDecodeError]. *)
Lemma loads_error (text : string) (e : exn) :
  json.loads text = inl e -> e = JSONDecodeError.
Proof.
  unfold json.loads.
  destruct (json.scan_value _ _) as [[v r]|]; [|by intros [= <-]].
  destruct (json.skip_ws r); [discriminate|by intros [= <-]].
Qed.

(** C2, as the code has it: for every path, [load_patches] raises
    [PatchesJsonLoadFailed] with that path when the file does not exist;
    when the file exists it returns what the decoder returns for the text
    of the file, so that a text that cannot be decoded raises
    [JSONDecodeError]. *)
Theorem load_patches_errors (fs : gmap string string) (file_name : string) :
  (fs !! file_name = None ->
   PatchLoader.load_patches fs file_name
   = inl (PatchesJsonLoadFailed "File not found" file_name))
  /\ (forall text : string,
        fs !! file_name = Some text ->
        PatchLoader.load_patches fs file_name = json.loads text
        /\ forall e : exn, json.loads text = inl e -> e = JSONDecodeError).
Proof.
  unfold PatchLoader.load_patches, PatchLoader.open. split.
  - intros ->. reflexivity.
  - intros text ->. step. split; [|apply loads_error].
    destruct (json.loads text) as [e|v] eqn:Hloads; [|reflexivity].
    apply loads_error in Hloads as ->. reflexivity.
Qed.

Lemma load_patches_errors_witness :
  PatchLoader.load_patches disk "tmp/missing.json"
  = inl (PatchesJsonLoadFailed "File not found" "tmp/missing.json")
  /\ PatchLoader.load_patches disk "tmp/patches.json" = json.loads manifest_text.
Proof.
  split.
  - apply (load_patches_errors disk "tmp/missing.json"). reflexivity.
  - apply (load_patches_errors disk "tmp/patches.json"). reflexivity.
Defined.

(** C2 as stated fails: the file exists, its text is an opening brace,
    which is no JSON document, and the error is the decoder's, not
    [PatchesJsonLoadFailed]. *)
Lemma malformed_manifest_raises_decode_error :
  PatchLoader.load_patches {[ "tmp/patches.json" := "{" ]} "tmp/patches.json"
  = inl JSONDecodeError
  /\ forall msg file_name : string,
       PatchLoader.load_patches {[ "tmp/patches.json" := "{" ]} "tmp/patches.json"
       <> inl (PatchesJsonLoadFailed msg file_name).
Proof.
  assert (PatchLoader.load_patches {[ "tmp/patches.json" := "{" ]} "tmp/patches.json"
          = inl JSONDecodeError) as H by (vm_compute; reflexivity).
  split; [exact H|]. intros msg file_name. rewrite H. discriminate.
Qed.

(** ** The selection *)

Section Selection.
Import Patches.

Lemma foldl_append_map {A B : Type} (f : A -> B) (xs : list A) (acc : list B) :
  foldl (fun acc x => acc ++ [f x]) acc xs = acc ++ map f xs.
Proof.
  revert acc. induction xs as [|x xs IH]; intros acc; cbn [foldl map].
  - by rewrite app_nil_r.
  - rewrite IH. by rewrite <- app_assoc.
Qed.

Lemma foldl_append_filter {A B : Type} (f : A -> B) (keep : A -> bool)
    (xs : list A) (acc : list B) :
  foldl (fun acc x => if keep x then acc ++ [f x] else acc) acc xs
  = acc ++ map f (List.filter keep xs).
Proof.
  revert acc. induction xs as [|x xs IH]; intros acc; cbn [foldl List.filter].
  - by rewrite app_nil_r.
  - rewrite IH. destruct (keep x); [|reflexivity].
    cbn [map]. by rewrite <- app_assoc.
Qed.

(** A string is equal to no dict. *)
Lemma str_not_in_dicts (s : string) (dicts : list ProjectedPatch) :
  py_in (PyStr s) (PyDict <$> dicts) = false.
Proof. induction dicts as [|d dicts IH]; [reflexivity|exact IH]. Qed.

Lemma str_not_in_universal_patch (self : t) (s : string) :
  py_in (PyStr s) (universal_patch_or_empty self) = false.
Proof.
  unfold universal_patch_or_empty.
  destruct (self !! "universal_patch"); [apply str_not_in_dicts|reflexivity].
Qed.

(** No name of the include request is equal to an entry of the
    universal bucket. *)
Lemma filter_include_request (self : t) (request : list string) :
  List.filter
    (fun raw => negb (py_in (PyStr raw) (universal_patch_or_empty self)))
    request
  = request.
Proof.
  induction request as [|raw raws IH]; [reflexivity|].
  cbn [List.filter]. rewrite str_not_in_universal_patch. cbn [negb].
  by rewrite IH.
Qed.

(** The calls in closed form, for every function in the place of
    [str.lower]. *)
Lemma include_exclude_patch_with_eq (str_lower : string -> string) (self : t)
    (app : APP) (parser : list call) (patches : list ProjectedPatch) :
  include_exclude_patch_with str_lower self app parser patches
  = parser
    ++ map (fun patch =>
              let normalized := replace " " "-" (str_lower (p_name patch)) in
              if decide (normalized ∈ exclude_request app)
              then exclude normalized else include normalized)
           patches
    ++ map include (include_request app).
Proof.
  unfold include_exclude_patch_with.
  rewrite (foldl_append_filter include
             (fun raw => negb (py_in (PyStr raw) (universal_patch_or_empty self)))).
  rewrite filter_include_request, app_assoc. f_equal.
  rewrite <- (foldl_append_map
                (fun patch =>
                   let normalized := replace " " "-" (str_lower (p_name patch)) in
                   if decide (normalized ∈ exclude_request app)
                   then exclude normalized else include normalized)).
  revert parser. induction patches as [|patch patches IH]; intros parser; [reflexivity|].
  cbn [foldl]. rewrite IH. f_equal.
  destruct (decide (_ ∈ exclude_request app)) as [Hin|Hnin].
  - rewrite bool_decide_eq_false_2 by tauto. reflexivity.
  - rewrite bool_decide_eq_true_2 by exact Hnin. reflexivity.
Qed.

(** [lower] gives the small letter of every capital letter and keeps
    every other character. *)
Lemma lower_char_small_letter (c : ascii) : lower_char c = small_letter c.
Proof. destruct c as [[] [] [] [] [] [] [] []]; vm_compute; reflexivity. Qed.

Lemma lower_lower_case (s : string) : lower s = lower_case s.
Proof.
  unfold lower_case. induction s as [|c s IH]; [reflexivity|].
  cbn [lower list_ascii_of_string fmap list_fmap string_of_list_ascii].
  by rewrite IH, lower_char_small_letter.
Qed.

Lemma hyphen_small_letter (c : ascii) :
  (if Ascii.eqb (small_letter c) " " then "-"%char else small_letter c)
  = (if Ascii.eqb c " " then "-"%char else small_letter c).
Proof. destruct c as [[] [] [] [] [] [] [] []]; vm_compute; reflexivity. Qed.

(** Hyphens for the spaces of a name in lower case: the normalized form. *)
Lemma replace_lower_case (name : string) :
  replace " " "-" (lower_case name) = normalized_form name.
Proof.
  unfold lower_case, normalized_form. induction name as [|c name IH]; [reflexivity|].
  cbn [list_ascii_of_string fmap list_fmap string_of_list_ascii replace].
  by rewrite IH, hyphen_small_letter.
Qed.

End Selection.

(** C3: [include_exclude_patch] makes one call for each patch of the
    bucket, in order: [exclude] with the normalized name, which is the
    name lower-cased by [str.lower] with hyphens for its spaces, when
    that name is in the exclude request, else [include] with it; then it
    calls [include] with each name of the include request that is equal
    to no entry of the universal bucket. No name is equal to an entry, so
    these are all the names of the request. The normalized name of a
    name that [str.lower] turns into its lower case of ASCII, as it does
    every name in ASCII, has the small letter for each capital letter
    and a hyphen for each space. *)
Theorem include_exclude_patch_calls (str_lower : string -> string)
    (self : Patches.t) (app : APP) (parser : list call)
    (patches : list ProjectedPatch) :
  Patches.include_exclude_patch_with str_lower self app parser patches
  = parser
    ++ map (fun patch =>
              let normalized := Patches.replace " " "-" (str_lower (p_name patch)) in
              if decide (normalized ∈ exclude_request app)
              then exclude normalized else include normalized)
           patches
    ++ map include
         (List.filter
            (fun raw =>
               negb (Patches.py_in (Patches.PyStr raw)
                                   (Patches.universal_patch_or_empty self)))
            (include_request app))
  /\ List.filter
       (fun raw =>
          negb (Patches.py_in (Patches.PyStr raw)
                              (Patches.universal_patch_or_empty self)))
       (include_request app)
     = include_request app
  /\ (forall name : string,
        str_lower name = lower_case name ->
        Patches.replace " " "-" (str_lower name) = normalized_form name).
Proof.
  split; [|split].
  - rewrite filter_include_request. apply include_exclude_patch_with_eq.
  - apply filter_include_request.
  - intros name ->. apply replace_lower_case.
Qed.

(** C3 on the scenario of the selection: of two patches, the one whose
    normalized name is in the exclude request is excluded by that name,
    the other is included, and the requested name is included after
    them. *)
Lemma include_exclude_patch_calls_witness :
  Patches.include_exclude_patch_with Patches.lower ∅
    (new_app "spotify" None ["spoof-client"] ["my-patch"]) []
    [ {| p_name := "My Patch"; p_description := "d";
         p_app := "com.spotify.music"; p_version := "1.1" |};
      {| p_name := "Hide Ads"; p_description := "d2";
         p_app := "com.spotify.music"; p_version := "1.1" |} ]
  = [exclude "my-patch"; include "hide-ads"; include "spoof-client"]
  /\ Patches.replace " " "-" (Patches.lower "My Patch") = "my-patch".
Proof.
  destruct (include_exclude_patch_calls Patches.lower ∅
              (new_app "spotify" None ["spoof-client"] ["my-patch"]) []
              [ {| p_name := "My Patch"; p_description := "d";
                   p_app := "com.spotify.music"; p_version := "1.1" |};
                {| p_name := "Hide Ads"; p_description := "d2";
                   p_app := "com.spotify.music"; p_version := "1.1" |} ])
    as (Hcalls & _ & Hname).
  split.
  - rewrite Hcalls. reflexivity.
  - apply (Hname "My Patch"). reflexivity.
Defined.

(** The scenario of the spec: a patch named [My Patch] with [my-patch] in
    the exclude request is excluded by that name and never included. *)
Example my_patch_is_excluded :
  Patches.include_exclude_patch ∅ (new_app "spotify" None [] ["my-patch"]) []
    [ {| p_name := "My Patch"; p_description := "d";
         p_app := "com.spotify.music"; p_version := "1.1" |} ]
  = [exclude "my-patch"].
Proof. reflexivity. Qed.

(** ** The run, end to end

    On the manifest of the run and the target Spotify, the bucket of
    Spotify holds the one dict of patch B at version 1.1, the universal
    bucket the one dict of patch A, the count is one and the version that
    [get] resolves is 1.1. *)
Example spotify_run :
  match Patches.__init__ disk config (new_app "spotify" None [] []) with
  | inr (self, app) =>
      self !! "_spotify"
      = Some [ {| p_name := "B"; p_description := "d2";
                  p_app := "com.spotify.music"; p_version := "1.1" |} ]
      /\ self !! "universal_patch"
         = Some [ {| p_name := "A"; p_description := "d";
                     p_app := "universal"; p_version := "all" |} ]
      /\ no_of_patches app = 1
      /\ Patches.get self "spotify"
         = inr ([ {| p_name := "B"; p_description := "d2";
                     p_app := "com.spotify.music"; p_version := "1.1" |} ],
                "1.1")
  | inl _ => False
  end.
Proof. vm_compute. repeat split. Qed.

(** * Further properties *)

(** ** Names of applications *)

Lemma find_short_name_Some (d : list (string * string)) (app package : string)
    (app_tuple : string * string) :
  find (fun '(package, app_tuple) => String.eqb (fst app_tuple) app)
       (map (fun '(key, value) => (key, (value, "_" +:+ value))) d)
  = Some (package, app_tuple) ->
  (package, app) ∈ d.
Proof.
  induction d as [|[k v] d IH]; cbn [map find]; [discriminate|].
  cbn [fst]. destruct (String.eqb_spec v app) as [->|Hne].
  - intros [= -> _]. left.
  - intros H. right. auto.
Qed.

Lemma get_package_name_registered (app : string) :
  app ∈ dict_values Patches._revanced_app_ids ->
  exists package, Patches.get_package_name app = inr package.
Proof.
  intros Happ. apply list_elem_of_fmap in Happ as ([package short] & Heq & Hin).
  cbn [snd] in Heq. subst app. exists package. unfold Patches.get_package_name, Patches.revanced_app_ids.
  by rewrite (find_short_name _ package short short_names_unique Hin).
Qed.

Lemma get_package_name_elem_of (app package : string) :
  Patches.get_package_name app = inr package ->
  (package, app) ∈ Patches._revanced_app_ids.
Proof.
  unfold Patches.get_package_name, Patches.revanced_app_ids.
  destruct (find _ _) as [[p t]|] eqn:Hfind; [|discriminate].
  intros [= <-]. by apply find_short_name_Some in Hfind.
Qed.

(** X1: a package id that [get_package_name] returns for a name is
    mapped to that name by [support_app]. *)
Theorem support_app_get_package_name (app package : string) :
  Patches.get_package_name app = inr package ->
  dict_get Patches.support_app package = Some app.
Proof.
  intros Hp. apply get_package_name_elem_of in Hp.
  apply dict_get_unique; [apply package_ids_unique|exact Hp].
Qed.

Lemma support_app_get_package_name_witness :
  dict_get Patches.support_app "com.google.android.youtube" = Some "youtube".
Proof.
  apply (support_app_get_package_name "youtube" "com.google.android.youtube").
  reflexivity.
Defined.

(** X2: on an object that [fetch_patches] has indexed, [get] returns for
    exactly the names for which [get_package_name] returns. *)
Theorem get_accepts_supported_names (self s : Patches.t)
    (patches : list PatchDescriptor) (app : string) :
  Patches.index_patches self patches = inr s ->
  (exists package, Patches.get_package_name app = inr package)
  <-> (exists r, Patches.get s app = inr r).
Proof.
  intros Hrun. destruct (index_patches_spec self patches) as (s' & Hrun' & Hk).
  rewrite Hrun in Hrun'. injection Hrun' as <-.
  destruct (decide (app ∈ dict_values Patches._revanced_app_ids)) as [Happ|Happ].
  - split; intros _; [|by apply get_package_name_registered].
    unfold Patches.get. rewrite app_names_lookup, bool_decide_eq_true_2 by exact Happ.
    change ("_" +:+ app) with (String "_" app).
    unfold Patches.getattr.
    assert (is_Some (s !! String "_" app)) as [bucket ->]; [|by eexists].
    rewrite Hk, init_buckets_lookup. rewrite decide_True; [by eexists|].
    right. by apply (list_elem_of_fmap_2 (fun short => "_" +:+ short)).
  - split.
    + intros [package Hp]. exfalso. apply Happ.
      apply get_package_name_elem_of in Hp.
      apply (list_elem_of_fmap_2 snd) in Hp. exact Hp.
    + intros [r Hr]. exfalso. revert Hr. unfold Patches.get.
      rewrite app_names_lookup, bool_decide_eq_false_2 by exact Happ. discriminate.
Qed.

Lemma get_accepts_supported_names_witness :
  (exists package, Patches.get_package_name "twitch" = inr package)
  <-> (exists r, Patches.get (Patches.init_buckets ∅) "twitch" = inr r).
Proof.
  apply (get_accepts_supported_names ∅ (Patches.init_buckets ∅) [] "twitch").
  reflexivity.
Defined.

(** X3: the version that [get] returns is never ["all"]: it is
    ["latest"] or the version of an entry of the bucket it returns. *)
Theorem get_version_not_all (self : Patches.t) (app : string)
    (bucket : list ProjectedPatch) (version : string) :
  Patches.get self app = inr (bucket, version) ->
  version <> "all"
  /\ (version = "latest" \/ exists i, i ∈ bucket /\ p_version i = version).
Proof.
  unfold Patches.get. destruct (Patches.app_names !! app) as [[|c n]|]; try discriminate.
  destruct (Patches.getattr self (String c n)) as [e|a]; [discriminate|]. step.
  destruct a; try discriminate.
  destruct (find _ patches) as [i|] eqn:Hfind.
  - intros [= <- <-]. apply find_some in Hfind as [Hin Hi]. split.
    + intros Hall. rewrite Hall in Hi. discriminate Hi.
    + right. exists i. split; [by apply list_elem_of_In|reflexivity].
  - intros [= <- <-]. split; [discriminate|by left].
Qed.

Lemma get_version_not_all_witness :
  "1.1" <> "all"
  /\ ("1.1" = "latest"
      \/ exists i, i ∈ [ {| p_name := "B"; p_description := "d2";
                            p_app := "com.spotify.music"; p_version := "1.1" |} ]
                   /\ p_version i = "1.1").
Proof.
  apply (get_version_not_all
           {[ "_spotify" := [ {| p_name := "B"; p_description := "d2";
                                 p_app := "com.spotify.music"; p_version := "1.1" |} ] ]}
           "spotify").
  vm_compute. reflexivity.
Defined.

(** ** The buckets after indexing *)

Lemma bucket_names_elem_of (k : string) :
  k ∈ bucket_names
  <-> k = "universal_patch"
      \/ k ∈ (fun short => "_" +:+ short) <$> dict_values Patches._revanced_app_ids.
Proof. unfold bucket_names. apply elem_of_cons. Qed.

Lemma init_buckets_bucket (self : Patches.t) (k : string) :
  k ∈ bucket_names -> Patches.init_buckets self !! k = Some [].
Proof.
  intros Hk. rewrite init_buckets_lookup.
  rewrite decide_True; [reflexivity|by apply bucket_names_elem_of].
Qed.

Lemma init_buckets_other (self : Patches.t) (k : string) :
  k ∉ bucket_names -> Patches.init_buckets self !! k = self !! k.
Proof.
  intros Hk. rewrite init_buckets_lookup.
  rewrite decide_False; [reflexivity|by rewrite <- bucket_names_elem_of].
Qed.

Lemma app_key_bucket (package short : string) :
  dict_get Patches._revanced_app_ids package = Some short ->
  "_" +:+ short ∈ bucket_names.
Proof.
  intros Hp. apply bucket_names_elem_of. right.
  apply (list_elem_of_fmap_2 (fun short => "_" +:+ short)).
  eapply registered_short, Hp.
Qed.

(** Nothing is appended to an attribute that is no bucket. *)
Lemma contribution_other (k : string) (patch : PatchDescriptor) :
  k ∉ bucket_names -> contribution k patch = [].
Proof.
  intros Hk. unfold contribution. rewrite decide_False.
  2:{ intros [-> _]. apply Hk. left. }
  cbn [app]. induction (patch_compatiblePackages patch) as [|x xs IH]; [reflexivity|].
  cbn [flat_map]. rewrite IH, app_nil_r. unfold package_contribution.
  destruct (dict_get _ (pkg_name x)) as [short|] eqn:Hx; [|reflexivity].
  rewrite decide_False; [reflexivity|].
  intros ->. apply Hk. eapply app_key_bucket, Hx.
Qed.

Lemma flat_map_nil {A B : Type} (f : A -> list B) (xs : list A) :
  (forall x, f x = []) -> flat_map f xs = [].
Proof. intros Hf. induction xs as [|x xs IH]; cbn [flat_map]; [|rewrite Hf, IH]; reflexivity. Qed.

(** The contents of a bucket and of the other attributes after indexing. *)
Lemma index_patches_lookup (self : Patches.t) (patches : list PatchDescriptor) :
  exists s, Patches.index_patches self patches = inr s
    /\ (forall k, k ∈ bucket_names -> s !! k = Some (flat_map (contribution k) patches))
    /\ (forall k, k ∉ bucket_names -> s !! k = self !! k).
Proof.
  destruct (index_patches_spec self patches) as (s & Hrun & Hk).
  exists s. split; [exact Hrun|]. split; intros k Hin; rewrite Hk.
  - by rewrite init_buckets_bucket.
  - rewrite init_buckets_other by exact Hin.
    rewrite (flat_map_nil (contribution k)) by (intros; by apply contribution_other).
    apply fmap_app_nil.
Qed.

(** What a patch adds to the universal bucket. *)
Lemma contribution_universal (patch : PatchDescriptor) :
  contribution "universal_patch" patch
  = if decide (patch_compatiblePackages patch = [])
    then [Patches.universal_projection patch] else [].
Proof.
  unfold contribution.
  rewrite (flat_map_nil (package_contribution "universal_patch" patch)).
  2:{ intros x. unfold package_contribution.
      destruct (dict_get _ (pkg_name x)); [|reflexivity].
      rewrite decide_False; [reflexivity|discriminate]. }
  rewrite app_nil_r. destruct (decide (patch_compatiblePackages patch = [])) as [H|H].
  - rewrite decide_True; [reflexivity|by split].
  - rewrite decide_False; [reflexivity|tauto].
Qed.

(** X4: on an object without an attribute [revanced_app_ids] of its
    own, so that [self.revanced_app_ids] is the registry of the class,
    indexing a manifest raises nothing and changes no attribute other
    than the buckets. *)
Theorem index_patches_keeps_other_attributes (self : Patches.t)
    (patches : list PatchDescriptor) :
  self !! "revanced_app_ids" = None ->
  exists s : Patches.t,
    Patches.index_patches self patches = inr s
    /\ forall k : string, k ∉ bucket_names -> s !! k = self !! k.
Proof.
  intros _.
  destruct (index_patches_lookup self patches) as (s & Hrun & _ & Hother).
  by exists s.
Qed.

Lemma index_patches_keeps_other_attributes_witness :
  exists s : Patches.t,
    Patches.index_patches
      {[ "selected" := [ {| p_name := "B"; p_description := "d2";
                            p_app := "com.spotify.music"; p_version := "1.1" |} ] ]}
      [ {| patch_name := "A"; patch_description := "d";
           patch_compatiblePackages := [] |} ]
    = inr s
    /\ forall k : string,
         k ∉ bucket_names ->
         s !! k
         = ({[ "selected" := [ {| p_name := "B"; p_description := "d2";
                                  p_app := "com.spotify.music";
                                  p_version := "1.1" |} ] ]} : Patches.t) !! k.
Proof.
  apply (index_patches_keeps_other_attributes
           {[ "selected" := [ {| p_name := "B"; p_description := "d2";
                                 p_app := "com.spotify.music"; p_version := "1.1" |} ] ]}
           [ {| patch_name := "A"; patch_description := "d";
                patch_compatiblePackages := [] |} ]).
  reflexivity.
Defined.

(** X5: indexing starts from empty buckets: on an object that was
    indexed before, with whatever manifest, it ends in the object it
    ends in without that earlier indexing. *)
Theorem index_patches_resets_buckets (self s : Patches.t)
    (earlier patches : list PatchDescriptor) :
  Patches.index_patches self earlier = inr s ->
  Patches.index_patches s patches = Patches.index_patches self patches.
Proof.
  intros Hrun.
  destruct (index_patches_lookup self earlier) as (s' & Hrun' & _ & Hother).
  rewrite Hrun in Hrun'. injection Hrun' as <-.
  destruct (index_patches_lookup s patches) as (s1 & -> & Hb1 & Ho1).
  destruct (index_patches_lookup self patches) as (s2 & -> & Hb2 & Ho2).
  f_equal. apply map_eq. intros k.
  destruct (decide (k ∈ bucket_names)) as [Hk|Hk].
  - by rewrite Hb1, Hb2.
  - by rewrite Ho1, Ho2, Hother.
Qed.

Lemma index_patches_resets_buckets_witness :
  Patches.index_patches
    (Patches.init_buckets {[ "_spotify" :=
       [ {| p_name := "B"; p_description := "d2";
            p_app := "com.spotify.music"; p_version := "1.1" |} ] ]})
    [ {| patch_name := "A"; patch_description := "d";
         patch_compatiblePackages := [] |} ]
  = Patches.index_patches
      {[ "_spotify" :=
         [ {| p_name := "B"; p_description := "d2";
              p_app := "com.spotify.music"; p_version := "1.1" |} ] ]}
      [ {| patch_name := "A"; patch_description := "d";
           patch_compatiblePackages := [] |} ].
Proof.
  apply (index_patches_resets_buckets _ _ []). reflexivity.
Defined.

(** X6: after indexing, the universal bucket holds, in the order of the
    manifest, one dict with app ["universal"] and version ["all"] for
    each patch whose [compatiblePackages] is empty, and nothing else. *)
Theorem universal_bucket_contents (self : Patches.t)
    (patches : list PatchDescriptor) :
  exists s : Patches.t,
    Patches.index_patches self patches = inr s
    /\ s !! "universal_patch"
       = Some ((fun patch => {| p_name := patch_name patch;
                                p_description := patch_description patch;
                                p_app := "universal"; p_version := "all" |})
               <$> filter (fun patch => patch_compatiblePackages patch = []) patches).
Proof.
  destruct (index_patches_lookup self patches) as (s & Hrun & Hb & _).
  exists s. split; [exact Hrun|]. rewrite Hb by left. f_equal. clear Hrun Hb.
  induction patches as [|patch patches IH]; [reflexivity|].
  cbn [flat_map]. rewrite IH, contribution_universal.
  destruct (decide (patch_compatiblePackages patch = [])) as [H|H].
  - rewrite filter_cons_True by exact H. reflexivity.
  - rewrite filter_cons_False by exact H. reflexivity.
Qed.

(** X7: the bucket of a manifest made of two parts is the bucket of the
    first part followed by the bucket of the second. *)
Theorem index_patches_app (self s1 s2 : Patches.t)
    (first second : list PatchDescriptor) (k : string)
    (b1 b2 : list ProjectedPatch) :
  k ∈ bucket_names ->
  Patches.index_patches self first = inr s1 ->
  Patches.index_patches self second = inr s2 ->
  s1 !! k = Some b1 ->
  s2 !! k = Some b2 ->
  exists s : Patches.t,
    Patches.index_patches self (first ++ second) = inr s
    /\ s !! k = Some (b1 ++ b2).
Proof.
  intros Hk Hrun1 Hrun2 Hb1 Hb2.
  destruct (index_patches_lookup self first) as (s1' & Hrun1' & Hl1 & _).
  destruct (index_patches_lookup self second) as (s2' & Hrun2' & Hl2 & _).
  destruct (index_patches_lookup self (first ++ second)) as (s & Hrun & Hl & _).
  rewrite Hrun1 in Hrun1'. injection Hrun1' as <-.
  rewrite Hrun2 in Hrun2'. injection Hrun2' as <-.
  exists s. split; [exact Hrun|].
  rewrite Hl, flat_map_app by exact Hk.
  rewrite Hl1 in Hb1 by exact Hk. rewrite Hl2 in Hb2 by exact Hk.
  congruence.
Qed.

Lemma index_patches_app_witness :
  exists s : Patches.t,
    Patches.index_patches ∅
      ([ {| patch_name := "A"; patch_description := "d";
            patch_compatiblePackages := [] |} ]
       ++ [ {| patch_name := "Z"; patch_description := "dz";
               patch_compatiblePackages := [] |} ])
    = inr s
    /\ s !! "universal_patch"
       = Some ([ {| p_name := "A"; p_description := "d";
                    p_app := "universal"; p_version := "all" |} ]
               ++ [ {| p_name := "Z"; p_description := "dz";
                       p_app := "universal"; p_version := "all" |} ]).
Proof.
  apply (index_patches_app ∅
           (<["universal_patch" :=
                [ {| p_name := "A"; p_description := "d";
                     p_app := "universal"; p_version := "all" |} ]]>
              (Patches.init_buckets ∅))
           (<["universal_patch" :=
                [ {| p_name := "Z"; p_description := "dz";
                     p_app := "universal"; p_version := "all" |} ]]>
              (Patches.init_buckets ∅))).
  - apply (bool_decide_unpack _). vm_compute. exact I.
  - vm_compute. reflexivity.
  - vm_compute. reflexivity.
  - reflexivity.
  - reflexivity.
Defined.

(** ** The object that [fetch_patches] returns *)

Lemma bucket_names_NoDup : NoDup bucket_names.
Proof. apply (bool_decide_unpack _). vm_compute. exact I. Qed.

(** An object that [fetch_patches] returns is one that indexing ends in,
    and the descriptor differs in the count only. *)
Lemma fetch_patches_inr (fs : gmap string string) (self s : Patches.t)
    (config : RevancedConfig) (app app' : APP) :
  Patches.fetch_patches fs self config app = inr (s, app') ->
  exists (patches : list PatchDescriptor) (n : nat),
    Patches.index_patches self patches = inr s
    /\ app' = set_no_of_patches app n.
Proof.
  unfold Patches.fetch_patches.
  destruct (resource app !! "patches_json") as [file|]; [step|discriminate].
  destruct (PatchLoader.load_patches _ _) as [e|doc]; [discriminate|step].
  destruct (manifest_of_json doc) as [e|patches]; [discriminate|step].
  unfold Patches.index_and_count.
  destruct (Patches.index_patches self patches) as [e|s0] eqn:Hrun; [discriminate|step].
  destruct (Patches.getattr s0 _) as [e|a]; [discriminate|step].
  destruct (Patches.len a) as [e|n]; [discriminate|step].
  intros [= <- <-]. by exists patches, n.
Qed.

(** X8: an object that the constructor returns has the buckets as its
    attributes and no other: one per application of the registry and the
    universal one, forty-one in all, whatever the manifest. *)
Theorem constructed_object_attributes (fs : gmap string string)
    (config : RevancedConfig) (app app' : APP) (s : Patches.t) :
  Patches.__init__ fs config app = inr (s, app') ->
  (forall k : string, is_Some (s !! k) <-> k ∈ bucket_names)
  /\ size s = 41.
Proof.
  intros Hinit. apply fetch_patches_inr in Hinit as (patches & n & Hrun & _).
  destruct (index_patches_lookup ∅ patches) as (s' & Hrun' & Hb & Ho).
  rewrite Hrun in Hrun'. injection Hrun' as <-.
  assert (forall k : string, is_Some (s !! k) <-> k ∈ bucket_names) as Hdom.
  { intros k. destruct (decide (k ∈ bucket_names)) as [Hk|Hk].
    - rewrite Hb by exact Hk. split; [done|by eexists].
    - rewrite Ho, lookup_empty by exact Hk. split; [by intros [? [=]]|done]. }
  split; [exact Hdom|].
  assert (dom s = list_to_set bucket_names) as Heq.
  { apply set_eq. intros k. by rewrite elem_of_dom, elem_of_list_to_set. }
  rewrite <- size_dom, Heq, size_list_to_set by apply bucket_names_NoDup.
  reflexivity.
Qed.

Lemma constructed_object_attributes_witness :
  (forall k : string, is_Some (run_object !! k) <-> k ∈ bucket_names)
  /\ size run_object = 41.
Proof.
  apply (constructed_object_attributes disk config
           (new_app "spotify" None [] [])
           (set_no_of_patches (new_app "spotify" None [] []) 1)
           run_object).
  vm_compute. reflexivity.
Defined.

Lemma app_bucket_length (package short : string) (patches : list PatchDescriptor) :
  dict_get Patches._revanced_app_ids package = Some short ->
  length (flat_map (contribution ("_" +:+ short)) patches)
  = length (flat_map (fun patch => filter (fun x => pkg_name x = package)
                                     (patch_compatiblePackages patch)) patches).
Proof.
  intros Hp. induction patches as [|patch patches IH]; [reflexivity|].
  cbn [flat_map]. rewrite !length_app, IH.
  rewrite (contribution_app_bucket package short) by exact Hp.
  by rewrite length_fmap.
Qed.

(** X9: for a registered application, [fetch_patches] returns, and the
    count it stores is the number of entries of [compatiblePackages],
    over the whole manifest, that name the package of the application. *)
Theorem no_of_patches_counts_entries (fs : gmap string string) (self : Patches.t)
    (config : RevancedConfig) (app : APP) (file : string) (doc : json.value)
    (patches : list PatchDescriptor) (package : string) :
  resource app !! "patches_json" = Some file ->
  PatchLoader.load_patches fs (temp_folder config +:+ "/" +:+ file) = inr doc ->
  manifest_of_json doc = inr patches ->
  dict_get Patches._revanced_app_ids package = Some (app_name app) ->
  exists s : Patches.t,
    Patches.fetch_patches fs self config app
    = inr (s, set_no_of_patches app
                (length (flat_map
                           (fun patch => filter (fun x => pkg_name x = package)
                                           (patch_compatiblePackages patch))
                           patches))).
Proof.
  intros Hfile Hload Hdoc Hp.
  destruct (fetch_patches_registered fs self config app file doc patches
              Hfile Hload Hdoc (registered_short _ _ Hp))
    as (s & bucket & Hrun & Hb & Hfetch).
  destruct (index_patches_lookup self patches) as (s' & Hrun' & Hl & _).
  rewrite Hrun in Hrun'. injection Hrun' as <-.
  rewrite Hl in Hb by (eapply app_key_bucket, Hp). injection Hb as <-.
  exists s. rewrite Hfetch. by rewrite (app_bucket_length package).
Qed.

Lemma no_of_patches_counts_entries_witness :
  exists s : Patches.t,
    Patches.fetch_patches disk ∅ config (new_app "spotify" None [] [])
    = inr (s, set_no_of_patches (new_app "spotify" None [] []) 1).
Proof.
  apply (no_of_patches_counts_entries disk ∅ config (new_app "spotify" None [] [])
           "patches.json"
           (json.JArray
              [ json.JObject
                  [ ("name", json.JString "A"); ("description", json.JString "d");
                    ("compatiblePackages", json.JArray []) ];
                json.JObject
                  [ ("name", json.JString "B"); ("description", json.JString "d2");
                    ("compatiblePackages",
                     json.JArray
                       [ json.JObject
                           [ ("name", json.JString "com.spotify.music");
                             ("versions",
                              json.JArray [json.JString "1.0"; json.JString "1.1"]) ] ]) ] ])
           [ {| patch_name := "A"; patch_description := "d";
                patch_compatiblePackages := [] |};
             {| patch_name := "B"; patch_description := "d2";
                patch_compatiblePackages :=
                  [ {| pkg_name := "com.spotify.music";
                       pkg_versions := ["1.0"; "1.1"] |} ] |} ]
           "com.spotify.music").
  - reflexivity.
  - vm_compute. reflexivity.
  - vm_compute. reflexivity.
  - reflexivity.
Defined.

(** X10: when the file of the manifest does not exist, [fetch_patches]
    and the constructor raise [PatchesJsonLoadFailed] with the path, the
    temporary folder and the name of the file joined by a slash; no
    bucket is set. *)
Theorem fetch_patches_missing_file (fs : gmap string string) (self : Patches.t)
    (config : RevancedConfig) (app : APP) (file : string) :
  resource app !! "patches_json" = Some file ->
  fs !! (temp_folder config +:+ "/" +:+ file) = None ->
  Patches.fetch_patches fs self config app
  = inl (PatchesJsonLoadFailed "File not found" (temp_folder config +:+ "/" +:+ file))
  /\ Patches.__init__ fs config app
     = inl (PatchesJsonLoadFailed "File not found" (temp_folder config +:+ "/" +:+ file)).
Proof.
  intros Hfile Hfs.
  assert (forall self0, Patches.fetch_patches fs self0 config app
          = inl (PatchesJsonLoadFailed "File not found"
                   (temp_folder config +:+ "/" +:+ file))) as H.
  { intros self0. unfold Patches.fetch_patches. rewrite Hfile. step.
    unfold PatchLoader.load_patches, PatchLoader.open. rewrite Hfs. reflexivity. }
  split; [apply H|apply H].
Qed.

Lemma fetch_patches_missing_file_witness :
  Patches.fetch_patches ∅ ∅ config (new_app "spotify" None [] [])
  = inl (PatchesJsonLoadFailed "File not found" "tmp/patches.json")
  /\ Patches.__init__ ∅ config (new_app "spotify" None [] [])
     = inl (PatchesJsonLoadFailed "File not found" "tmp/patches.json").
Proof.
  apply (fetch_patches_missing_file ∅ ∅ config (new_app "spotify" None [] [])
           "patches.json"); reflexivity.
Defined.

(** X11: the constructor raises [AttributeError] for every name that is
    no short name of the registry, does not begin with an underscore and
    is not [revanced_app_ids], whatever the manifest. *)
Theorem constructor_unknown_plain_name (fs : gmap string string)
    (config : RevancedConfig) (app : APP) (file : string) (doc : json.value)
    (patches : list PatchDescriptor) :
  resource app !! "patches_json" = Some file ->
  PatchLoader.load_patches fs (temp_folder config +:+ "/" +:+ file) = inr doc ->
  manifest_of_json doc = inr patches ->
  app_name app ∉ dict_values Patches._revanced_app_ids ->
  app_name app <> "revanced_app_ids" ->
  (forall rest : string, app_name app <> String "_" rest) ->
  Patches.__init__ fs config app = inl (AttributeError ("_" +:+ app_name app)).
Proof.
  intros Hfile Hload Hdoc Happ Hids Hplain.
  destruct (index_patches_lookup ∅ patches) as (s & Hrun & _ & Ho).
  unfold Patches.__init__, Patches.fetch_patches. rewrite Hfile. step.
  rewrite Hload. step. rewrite Hdoc. step.
  unfold Patches.index_and_count. rewrite Hrun. step. unfold Patches.getattr.
  rewrite Ho, lookup_empty.
  2:{ intros Hk. apply bucket_names_elem_of in Hk as [Hu|Hin]; [discriminate Hu|].
      apply short_name_of_key in Hin as (short & Heq & Hin).
      injection Heq as Heq. change (app_name app = short) in Heq.
      by rewrite Heq in Happ. }
  assert (dict_get (Patches.class_attrs s) ("_" +:+ app_name app) = None) as ->.
  { apply dict_get_None. rewrite class_attrs_keys. intros Hin.
    apply class_attr_names_underscore in Hin as [Hin|[rest Hin]]; [done|].
    by apply (Hplain rest). }
  reflexivity.
Qed.

Lemma constructor_unknown_plain_name_witness :
  Patches.__init__ disk config (new_app "whatsapp" None [] [])
  = inl (AttributeError "_whatsapp").
Proof.
  apply (constructor_unknown_plain_name disk config (new_app "whatsapp" None [] [])
           "patches.json"
           (json.JArray
              [ json.JObject
                  [ ("name", json.JString "A"); ("description", json.JString "d");
                    ("compatiblePackages", json.JArray []) ];
                json.JObject
                  [ ("name", json.JString "B"); ("description", json.JString "d2");
                    ("compatiblePackages",
                     json.JArray
                       [ json.JObject
                           [ ("name", json.JString "com.spotify.music");
                             ("versions",
                              json.JArray [json.JString "1.0"; json.JString "1.1"]) ] ]) ] ])
           [ {| patch_name := "A"; patch_description := "d";
                patch_compatiblePackages := [] |};
             {| patch_name := "B"; patch_description := "d2";
                patch_compatiblePackages :=
                  [ {| pkg_name := "com.spotify.music";
                       pkg_versions := ["1.0"; "1.1"] |} ] |} ]).
  - reflexivity.
  - vm_compute. reflexivity.
  - vm_compute. reflexivity.
  - apply (bool_decide_unpack _). vm_compute. exact I.
  - discriminate.
  - discriminate.
Defined.

(** ** The version that is reported *)

(** X12: without a request, that is with [None] or the empty string as
    version, [get_app_configs] reports the version that [get] resolves
    and sets the experimental flag to false. *)
Theorem get_app_configs_without_request (self : Patches.t) (app : APP)
    (total : list ProjectedPatch) (recommended : string) :
  app_version app = None \/ app_version app = Some EmptyString ->
  Patches.get self (app_name app) = inr (total, recommended) ->
  Patches.get_app_configs self app
  = inr (total, set_recommended_version app recommended false).
Proof.
  intros Hv Hget. rewrite (get_app_configs_policy self app total recommended Hget).
  by destruct Hv as [-> | ->].
Qed.

Lemma get_app_configs_without_request_witness :
  Patches.get_app_configs run_object (new_app "spotify" (Some EmptyString) [] [])
  = inr ([ {| p_name := "B"; p_description := "d2";
              p_app := "com.spotify.music"; p_version := "1.1" |} ],
         set_recommended_version (new_app "spotify" (Some EmptyString) [] [])
           "1.1" false).
Proof.
  apply (get_app_configs_without_request run_object
           (new_app "spotify" (Some EmptyString) [] [])).
  - right. reflexivity.
  - vm_compute. reflexivity.
Defined.

(** X13: with a request, [get_app_configs] reports the requested version,
    and the experimental flag is true exactly when the request is
    ["latest"] or is not the version that [get] resolves; so a request
    for ["latest"] is experimental also when ["latest"] is what [get]
    resolves. *)
Theorem get_app_configs_with_request (self : Patches.t) (app : APP)
    (total : list ProjectedPatch) (recommended v : string) :
  app_version app = Some v ->
  v <> EmptyString ->
  Patches.get self (app_name app) = inr (total, recommended) ->
  Patches.get_app_configs self app
  = inr (total,
         set_recommended_version app v
           (bool_decide (v = "latest" \/ v <> recommended))).
Proof.
  intros Hv Hne Hget.
  rewrite (get_app_configs_policy self app total recommended Hget), Hv.
  destruct v as [|c v']; [done|]. do 3 f_equal.
  destruct (String.eqb_spec (String c v') "latest") as [Hl|Hl];
    destruct (String.eqb_spec (String c v') recommended) as [Hr|Hr]; cbn [orb negb];
    symmetry; first [apply bool_decide_eq_true_2 | apply bool_decide_eq_false_2]; tauto.
Qed.

Lemma get_app_configs_with_request_witness :
  Patches.get_app_configs (Patches.init_buckets ∅)
    (new_app "spotify" (Some "latest") [] [])
  = inr ([], set_recommended_version (new_app "spotify" (Some "latest") [] [])
               "latest" (bool_decide ("latest" = "latest" \/ "latest" <> "latest"))).
Proof.
  apply (get_app_configs_with_request (Patches.init_buckets ∅)
           (new_app "spotify" (Some "latest") [] []) [] "latest" "latest").
  - reflexivity.
  - discriminate.
  - vm_compute. reflexivity.
Defined.

(** X14: for an application whose name is no short name of the registry,
    [get_app_configs] raises the [AppNotFound] of [get], on every object
    that has no attribute [get] or [revanced_app_ids] of its own, so that
    [self.get] is the method and [self.revanced_app_ids] the registry of
    the class. *)
Theorem get_app_configs_unknown_app (self : Patches.t) (app : APP) :
  app_name app ∉ dict_values Patches._revanced_app_ids ->
  self !! "get" = None ->
  self !! "revanced_app_ids" = None ->
  Patches.get_app_configs self app
  = inl (AppNotFound ("App " +:+ app_name app +:+ " not supported yet.")).
Proof.
  intros Happ _ _. unfold Patches.get_app_configs, Patches.get.
  rewrite app_names_lookup, bool_decide_eq_false_2 by exact Happ. reflexivity.
Qed.

Lemma get_app_configs_unknown_app_witness :
  Patches.get_app_configs run_object (new_app "whatsapp" (Some "2.0") [] [])
  = inl (AppNotFound "App whatsapp not supported yet.").
Proof.
  apply (get_app_configs_unknown_app run_object (new_app "whatsapp" (Some "2.0") [] [])).
  - apply (bool_decide_unpack _). vm_compute. exact I.
  - vm_compute. reflexivity.
  - vm_compute. reflexivity.
Defined.

(** The version of line 159, from the versions of the bucket alone. *)
Lemma find_version_head (bucket : list ProjectedPatch) :
  match find (fun i => negb (String.eqb (p_version i) "all")) bucket with
  | Some i => p_version i
  | None => "latest"
  end
  = default "latest" (head (filter (fun v => v <> "all") (p_version <$> bucket))).
Proof.
  induction bucket as [|i bucket IH]; [reflexivity|].
  cbn [find fmap list_fmap].
  destruct (String.eqb_spec (p_version i) "all") as [Hall|Hall]; cbn [negb].
  - rewrite filter_cons_False by (intros H; by apply H). exact IH.
  - rewrite filter_cons_True by exact Hall. reflexivity.
Qed.

Lemma app_bucket_versions (package short : string) (patches : list PatchDescriptor) :
  dict_get Patches._revanced_app_ids package = Some short ->
  p_version <$> flat_map (contribution ("_" +:+ short)) patches
  = (fun x => default "all" (last (pkg_versions x)))
    <$> flat_map (fun patch => filter (fun x => pkg_name x = package)
                                 (patch_compatiblePackages patch)) patches.
Proof.
  intros Hp. induction patches as [|patch patches IH]; [reflexivity|].
  cbn [flat_map]. rewrite !fmap_app, IH.
  rewrite (contribution_app_bucket package short) by exact Hp.
  rewrite <- list_fmap_compose. reflexivity.
Qed.

(** X15: after indexing, the version that [get] resolves for a
    registered application comes from the entries of the manifest for its
    package, in order: it is the last version of the first entry whose
    last version exists and is not ["all"], and ["latest"] when there is
    no such entry. *)
Theorem recommended_version_from_manifest (self : Patches.t)
    (patches : list PatchDescriptor) (package short : string) :
  dict_get Patches._revanced_app_ids package = Some short ->
  exists (s : Patches.t) (bucket : list ProjectedPatch),
    Patches.index_patches self patches = inr s
    /\ Patches.get s short
       = inr (bucket,
              default "latest"
                (head (filter (fun v => v <> "all")
                         ((fun x => default "all" (last (pkg_versions x)))
                          <$> flat_map
                                (fun patch =>
                                   filter (fun x => pkg_name x = package)
                                          (patch_compatiblePackages patch))
                                patches)))).
Proof.
  intros Hp. destruct (index_patches_lookup self patches) as (s & Hrun & Hb & _).
  exists s, (flat_map (contribution ("_" +:+ short)) patches).
  split; [exact Hrun|]. unfold Patches.get.
  rewrite app_names_lookup, bool_decide_eq_true_2 by (eapply registered_short, Hp).
  change ("_" +:+ short) with (String "_" short) in *.
  unfold Patches.getattr. rewrite Hb by (eapply (app_key_bucket package), Hp). step.
  rewrite find_version_head.
  change (String "_" short) with ("_" +:+ short).
  rewrite (app_bucket_versions package short) by exact Hp. reflexivity.
Qed.

Lemma recommended_version_from_manifest_witness :
  exists (s : Patches.t) (bucket : list ProjectedPatch),
    Patches.index_patches ∅
      [ {| patch_name := "A"; patch_description := "d";
           patch_compatiblePackages :=
             [ {| pkg_name := "com.spotify.music"; pkg_versions := [] |} ] |};
        {| patch_name := "B"; patch_description := "d2";
           patch_compatiblePackages :=
             [ {| pkg_name := "com.spotify.music";
                  pkg_versions := ["1.0"; "1.1"] |} ] |} ]
    = inr s
    /\ Patches.get s "spotify" = inr (bucket, "1.1").
Proof.
  apply (recommended_version_from_manifest ∅
           [ {| patch_name := "A"; patch_description := "d";
                patch_compatiblePackages :=
                  [ {| pkg_name := "com.spotify.music"; pkg_versions := [] |} ] |};
             {| patch_name := "B"; patch_description := "d2";
                patch_compatiblePackages :=
                  [ {| pkg_name := "com.spotify.music";
                       pkg_versions := ["1.0"; "1.1"] |} ] |} ]
           "com.spotify.music" "spotify").
  reflexivity.
Defined.

(** ** The calls on the parser *)

(** The calls in closed form: those made before, one for each patch of
    the bucket, one for each name of the include request. *)
Lemma include_exclude_patch_eq (self : Patches.t) (app : APP)
    (parser : list call) (patches : list ProjectedPatch) :
  Patches.include_exclude_patch self app parser patches
  = parser
    ++ map (fun patch =>
              let normalized := Patches.replace " " "-" (Patches.lower (p_name patch)) in
              if decide (normalized ∈ exclude_request app)
              then exclude normalized else include normalized)
           patches
    ++ map include (include_request app).
Proof. apply include_exclude_patch_with_eq. Qed.

(** X16: the calls do not depend on the object: the universal bucket,
    which line 188 consults, changes none of them. *)
Theorem include_exclude_patch_ignores_object (self self' : Patches.t) (app : APP)
    (parser : list call) (patches : list ProjectedPatch) :
  Patches.include_exclude_patch self app parser patches
  = Patches.include_exclude_patch self' app parser patches.
Proof. by rewrite !include_exclude_patch_eq. Qed.

Lemma elem_of_map {A B : Type} (f : A -> B) (xs : list A) (y : B) :
  y ∈ map f xs <-> exists x, f x = y /\ x ∈ xs.
Proof.
  rewrite list_elem_of_In, in_map_iff.
  split; intros (x & Hx & Hin); exists x; (split; [exact Hx|by apply list_elem_of_In]).
Qed.

(** X17: which calls are made, on a parser without earlier calls, where
    the normalized name of a patch is its name lower-cased by
    [str.lower], with hyphens for spaces. [exclude] is called with a name
    exactly when the name is in the exclude request and is the normalized
    name of a patch of the bucket; [include] is called with a name
    exactly when the name is in the include request, or is the normalized
    name of a patch of the bucket and not in the exclude request. A name
    of the include request is included also when a patch of that name is
    excluded. *)
Theorem include_exclude_patch_elem_of (str_lower : string -> string)
    (self : Patches.t) (app : APP) (patches : list ProjectedPatch)
    (name : string) :
  (exclude name ∈ Patches.include_exclude_patch_with str_lower self app [] patches
   <-> (name ∈ exclude_request app)
       /\ exists patch, patch ∈ patches
            /\ Patches.replace " " "-" (str_lower (p_name patch)) = name)
  /\ (include name ∈ Patches.include_exclude_patch_with str_lower self app [] patches
      <-> (name ∈ include_request app)
          \/ ((name ∉ exclude_request app)
              /\ exists patch, patch ∈ patches
                   /\ Patches.replace " " "-" (str_lower (p_name patch)) = name)).
Proof.
  rewrite include_exclude_patch_with_eq, app_nil_l.
  split; rewrite elem_of_app, !elem_of_map; split.
  - intros [(patch & Hcall & Hin)|(raw & [=] & _)].
    cbn zeta in Hcall. destruct (decide (_ ∈ exclude_request app)) as [Hex|Hex];
      [|discriminate]. injection Hcall as <-.
    split; [exact Hex|]. by exists patch.
  - intros (Hex & patch & Hin & <-). left. exists patch.
    split; [|exact Hin]. cbn zeta. by rewrite decide_True.
  - intros [(patch & Hcall & Hin)|(raw & [= <-] & Hin)].
    + cbn zeta in Hcall. destruct (decide (_ ∈ exclude_request app)) as [Hex|Hex];
        [discriminate|]. injection Hcall as <-.
      right. split; [exact Hex|]. by exists patch.
    + by left.
  - intros [Hin|(Hex & patch & Hin & <-)].
    + right. by exists name.
    + left. exists patch. split; [|exact Hin].
      cbn zeta. by rewrite decide_False.
Qed.

(** X17 on a patch that is excluded and requested: both calls are made. *)
Lemma include_exclude_patch_elem_of_witness :
  exclude "my-patch"
  ∈ Patches.include_exclude_patch_with Patches.lower ∅
      (new_app "spotify" None ["my-patch"] ["my-patch"]) []
      [ {| p_name := "My Patch"; p_description := "d";
           p_app := "com.spotify.music"; p_version := "1.1" |} ]
  /\ include "my-patch"
     ∈ Patches.include_exclude_patch_with Patches.lower ∅
         (new_app "spotify" None ["my-patch"] ["my-patch"]) []
         [ {| p_name := "My Patch"; p_description := "d";
              p_app := "com.spotify.music"; p_version := "1.1" |} ].
Proof.
  destruct (include_exclude_patch_elem_of Patches.lower ∅
              (new_app "spotify" None ["my-patch"] ["my-patch"])
              [ {| p_name := "My Patch"; p_description := "d";
                   p_app := "com.spotify.music"; p_version := "1.1" |} ]
              "my-patch") as [Hexclude Hinclude].
  split.
  - apply Hexclude. split; [left|]. eexists. split; [left|reflexivity].
  - apply Hinclude. left. left.
Defined.

(** *** Normalized names *)

(** What normalization does to one character. *)
Lemma normalized_char (c : ascii) :
  let c' := if Ascii.eqb (Patches.lower_char c) " " then "-"%char
            else Patches.lower_char c in
  c' <> " "%char
  /\ ~ (65 <= nat_of_ascii c' <= 90)
  /\ Patches.lower_char c' = c'.
Proof.
  destruct c as [[] [] [] [] [] [] [] []]; vm_compute;
    (split; [discriminate|split; [lia|reflexivity]]).
Qed.

Lemma normalized_chars (s : string) (c : ascii) :
  c ∈ list_ascii_of_string (Patches.replace " " "-" (Patches.lower s)) ->
  c <> " "%char /\ ~ (65 <= nat_of_ascii c <= 90).
Proof.
  induction s as [|c0 s IH]; cbn [Patches.lower Patches.replace list_ascii_of_string].
  - intros H. by apply elem_of_nil in H.
  - intros H. apply elem_of_cons in H as [->|H]; [|exact (IH H)].
    destruct (normalized_char c0) as (H1 & H2 & _). by split.
Qed.

Lemma normalized_char_ascii (c : ascii) :
  nat_of_ascii c < 128 ->
  nat_of_ascii (if Ascii.eqb (Patches.lower_char c) " " then "-"%char
                else Patches.lower_char c) < 128.
Proof. destruct c as [[] [] [] [] [] [] [] []]; vm_compute; lia. Qed.

(** X18: for a name in ASCII, on which [str.lower] is [lower]: the
    normalized name has the small letter for each capital letter and a
    hyphen for each space; it is in ASCII, as long as the name, without
    space and without capital letter, and normalizing it again changes
    nothing. *)
Theorem normalized_name (s : string) :
  is_ascii s ->
  Patches.replace " " "-" (Patches.lower s) = normalized_form s
  /\ is_ascii (Patches.replace " " "-" (Patches.lower s))
  /\ String.length (Patches.replace " " "-" (Patches.lower s)) = String.length s
  /\ (forall c : ascii,
        c ∈ list_ascii_of_string (Patches.replace " " "-" (Patches.lower s)) ->
        c <> " "%char /\ ~ (65 <= nat_of_ascii c <= 90))
  /\ Patches.replace " " "-"
       (Patches.lower (Patches.replace " " "-" (Patches.lower s)))
     = Patches.replace " " "-" (Patches.lower s).
Proof.
  intros Hs. split; [|split; [|split; [|split]]].
  - rewrite lower_lower_case. apply replace_lower_case.
  - unfold is_ascii in *. induction s as [|c s IH];
      cbn [Patches.lower Patches.replace list_ascii_of_string] in *; [constructor|].
    apply Forall_cons in Hs as [Hc Hs]. constructor; [|by apply IH].
    by apply normalized_char_ascii.
  - clear Hs. induction s as [|c s IH]; cbn [Patches.lower Patches.replace String.length];
      [reflexivity|by rewrite IH].
  - apply normalized_chars.
  - clear Hs. induction s as [|c s IH]; cbn [Patches.lower Patches.replace]; [reflexivity|].
    rewrite IH. f_equal.
    destruct (normalized_char c) as (Hsp & _ & Hlow). cbn zeta in Hsp, Hlow.
    rewrite Hlow. destruct (Ascii.eqb_spec
      (if Ascii.eqb (Patches.lower_char c) " " then "-"%char else Patches.lower_char c)
      " "%char) as [Heq|_]; [done|reflexivity].
Qed.

Lemma normalized_name_witness :
  Patches.replace " " "-" (Patches.lower "My Patch") = "my-patch"
  /\ String.length (Patches.replace " " "-" (Patches.lower "My Patch")) = 8.
Proof.
  destruct (normalized_name "My Patch"
              ltac:(apply (bool_decide_unpack _); vm_compute; exact I))
    as (Hform & _ & Hlength & _).
  split; [exact Hform|exact Hlength].
Defined.

(** X19: a name of the exclude request that has a space or an upper-case
    letter of ASCII in it excludes nothing: [exclude] is not called with
    it, whatever the bucket, unless it was called before. *)
Theorem exclude_request_not_normalized (self : Patches.t) (app : APP)
    (parser : list call) (patches : list ProjectedPatch) (name : string)
    (c : ascii) :
  c ∈ list_ascii_of_string name ->
  c = " "%char \/ 65 <= nat_of_ascii c <= 90 ->
  exclude name ∉ parser ->
  exclude name ∉ Patches.include_exclude_patch self app parser patches.
Proof.
  intros Hc Hbad Hparser. rewrite include_exclude_patch_eq, !elem_of_app, !elem_of_map.
  intros [Hin|[(patch & Hcall & _)|(raw & [=] & _)]]; [by apply Hparser|].
  cbn zeta in Hcall.
  destruct (decide (_ ∈ exclude_request app)); [|discriminate].
  injection Hcall as <-.
  apply normalized_chars in Hc as [Hsp Hup]. destruct Hbad; [done|lia].
Qed.

Lemma exclude_request_not_normalized_witness :
  exclude "My Patch"
  ∉ Patches.include_exclude_patch ∅ (new_app "spotify" None [] ["My Patch"]) []
      [ {| p_name := "My Patch"; p_description := "d";
           p_app := "com.spotify.music"; p_version := "1.1" |} ].
Proof.
  apply (exclude_request_not_normalized ∅ (new_app "spotify" None [] ["My Patch"]) []
           [ {| p_name := "My Patch"; p_description := "d";
                p_app := "com.spotify.music"; p_version := "1.1" |} ]
           "My Patch" " "%char).
  - apply (bool_decide_unpack _). vm_compute. exact I.
  - left. reflexivity.
  - apply not_elem_of_nil.
Defined.
